(** * Worker API #1 of the sqlite3 WASM bindings: a shallow embedding

    This development embeds [ext/wasm/api/sqlite3-api-worker1.js] in Rocq
    and proves properties of its handle registry ([wState], [getDbId],
    [getMsgDb]), of its command handlers ([wMsgHandler]) and of its
    dispatcher ([self.onmessage]).

    Conventions of the embedding:
    - JavaScript values are the inductive type [value]; plain objects are
      association lists from property names to values, in insertion order.
    - Of an inbound message only [args] is written to: [exec] sets
      properties of it, and the engine appends to the arrays it holds
      under [resultRows] and [columnNames]. [args] is held as a tree of
      values; the properties of the message that the dispatcher reads
      after the handler has run, [messageId] and [departureTime], may
      share objects with it ([linked]).
    - JavaScript numbers are modelled by unbounded integers ([Z], [N]);
      binary64 rounding is outside the model.
    - The worker is single threaded; a handler is a function from the
      [World] before the call to an [outcome] and the [World] after it, so
      that the mutations made before a [throw] survive it, as they do in
      JavaScript.
    - The store engine (the OO API #1 [DB] class), the host clock and the
      host configuration are collaborators of this file; what they answer
      while one message is served is given by an [Env]. *)

From Stdlib Require Import ZArith NArith String Ascii List Lia.
From Stdlib Require Import DecimalString DecimalN DecimalPos DecimalZ.
From stdpp Require Import base gmap strings list.

Local Open Scope string_scope.
Local Open Scope list_scope.
Local Open Scope stdpp_scope.
Set Warnings "-register-all".

(** ** JavaScript values *)

(** The only function value the worker ever creates is the arrow function
    that [exec] installs as [rc.callback]; it closes over the message type
    [callbackMsgType] (and over the counter [rowNumber], which lives in
    the activation of [exec]). *)
Inductive closure : Type :=
| RowPoster (callbackMsgType : string).

Inductive value : Type :=
| VUndefined
| VNull
| VBool (b : bool)
| VNum (n : Z)
| VStr (s : string)
| VFunction (f : closure)
| VArray (elems : list value) (props : list (string * value))
| VObject (props : list (string * value)).

Abbreviation obj := (list (string * value)).

(** ToBoolean. *)
Definition truthy (v : value) : bool :=
  match v with
  | VUndefined | VNull => false
  | VBool b => b
  | VNum n => negb (n =? 0)%Z
  | VStr s => negb (String.eqb s "")
  | VFunction _ | VArray _ _ | VObject _ => true
  end.

(** [a || b] and [a && b] on values. *)
Definition js_or (a b : value) : value := if truthy a then a else b.
Definition js_and (a b : value) : value := if truthy a then b else a.

(** [x === 'literal']. *)
Definition is_str (v : value) (s : string) : bool :=
  match v with
  | VStr s' => String.eqb s' s
  | _ => false
  end.

(** ['string' === typeof v], ['object' === typeof v],
    [v instanceof Function], [Array.isArray(v)]. *)
Definition typeof_string (v : value) : bool :=
  match v with VStr _ => true | _ => false end.
Definition typeof_object (v : value) : bool :=
  match v with VNull | VArray _ _ | VObject _ => true | _ => false end.
Definition instanceof_Function (v : value) : bool :=
  match v with VFunction _ => true | _ => false end.
Definition isArray (v : value) : bool :=
  match v with VArray _ _ => true | _ => false end.

(** Own properties of an object, by name. *)
Fixpoint lookup_prop (o : obj) (k : string) : option value :=
  match o with
  | [] => None
  | (k', v) :: o' => if String.eqb k k' then Some v else lookup_prop o' k
  end.

Fixpoint set_prop (o : obj) (k : string) (v : value) : obj :=
  match o with
  | [] => [(k, v)]
  | (k', v') :: o' =>
      if String.eqb k k' then (k, v) :: o' else (k', v') :: set_prop o' k v
  end.

(** [v.k] for the property names this file reads ([filename], [unlink],
    [simulateError], [rowMode], [callback], [resultRows], [columnNames],
    [dbId]): none of them is a built-in property of a primitive, of an
    array or of a function, so only own properties can answer. Reading a
    property of [undefined] or [null] throws instead; every read in the
    source is behind a truthiness test or on a fresh object. *)
Definition get (v : value) (k : string) : value :=
  match v with
  | VObject o | VArray _ o => default VUndefined (lookup_prop o k)
  | _ => VUndefined
  end.

(** [v.k = x] in strict mode: [None] stands for the [TypeError] that an
    assignment to a property of a primitive raises. (Function values are
    never assigned to: no inbound message holds one, as functions cannot
    be cloned across the worker boundary.) *)
Definition put (v : value) (k : string) (x : value) : option value :=
  match v with
  | VObject o => Some (VObject (set_prop o k x))
  | VArray l o => Some (VArray l (set_prop o k x))
  | _ => None
  end.

(** Decimal rendering of integers, as [String(n)] gives for the integers
    this file concatenates into names. *)
Definition string_of_N (n : N) : string :=
  NilEmpty.string_of_uint (N.to_uint n).
Definition string_of_pos (p : positive) : string :=
  NilEmpty.string_of_uint (Pos.to_uint p).
Definition string_of_Z (z : Z) : string :=
  NilEmpty.string_of_int (Z.to_int z).

(** [args.join(sep)] on strings. *)
Fixpoint join (sep : string) (parts : list string) : string :=
  match parts with
  | [] => ""
  | [s] => s
  | s :: rest => s +:+ sep +:+ join sep rest
  end.

(** ToString, used where the source concatenates a value into a string. *)
Fixpoint js_to_string (v : value) : string :=
  match v with
  | VUndefined => "undefined"
  | VNull => "null"
  | VBool true => "true"
  | VBool false => "false"
  | VNum n => string_of_Z n
  | VStr s => s
  | VFunction _ => "function"
  | VArray l _ =>
      join "," (map (fun x => match x with
                              | VUndefined | VNull => ""
                              | _ => js_to_string x
                              end) l)
  | VObject _ => "[object Object]"
  end.

(** [v[0]]. *)
Definition index0 (v : value) : value :=
  match v with
  | VStr (String c _) => VStr (String c "")
  | VArray (x :: _) _ => x
  | VObject o => default VUndefined (lookup_prop o "0")
  | _ => VUndefined
  end.

(** [s.split('\n')]. *)
Fixpoint split_lines_aux (cur : string) (s : string) : list string :=
  match s with
  | EmptyString => [cur]
  | String c s' =>
      if Ascii.eqb c "010"%char then cur :: split_lines_aux "" s'
      else split_lines_aux (cur +:+ String c "") s'
  end.
Definition split_lines (s : string) : list string := split_lines_aux "" s.

(** Does a value contain a function anywhere inside it? Such a value
    cannot be cloned across the worker boundary. *)
Fixpoint has_function (v : value) : bool :=
  match v with
  | VFunction _ => true
  | VArray l o =>
      existsb has_function l || existsb (fun kv => has_function kv.2) o
  | VObject o => existsb (fun kv => has_function kv.2) o
  | _ => false
  end.

(** [args.join(sep)] on values: [undefined] and [null] render as the
    empty string. *)
Definition join_values (sep : string) (parts : list value) : string :=
  join sep (map (fun x => match x with
                          | VUndefined | VNull => ""
                          | _ => js_to_string x
                          end) parts).

(** ** Errors and outcomes *)

Record Error : Type := mkError {
  err_name : string;
  err_message : string
}.

(** [const toss = (...args)=>{throw new Error(args.join(' '))}]: the
    exception that a call of [toss] raises. *)
Definition toss (parts : list value) : Error :=
  mkError "Error" (join_values " " parts).

Inductive outcome (A : Type) : Type :=
| Returns (a : A)
| Throws (e : Error).
Arguments Returns {A} a.
Arguments Throws {A} e.

(** ** Messages *)

(** The structured clone that delivers a message keeps its object graph:
    an object that the sender referenced from two places of the message
    is one object in the worker too. [exec] writes to its options object,
    [ev.args], in place, and the engine appends to the arrays that object
    holds; so what the dispatcher reads of [ev.messageId] and of
    [ev.departureTime] after the handler has run depends on whether these
    are, or contain, objects that [ev.args] reaches as well.

    A [linked] value is a value in which such an object is given by the
    path of property names that leads to it from [ev.args]: [Shared []]
    is the options object itself, [Shared ["resultRows"]] the array it
    holds under [resultRows]. Nothing else of a message is ever written
    to, so any other sharing cannot be observed, and [Own] holds such
    values as they are. *)
Inductive linked : Type :=
| Own (v : value)
| Shared (path : list string)
| LinkedArray (elems : list linked) (props : list (string * linked))
| LinkedObject (props : list (string * linked)).

(** Arrays and plain objects: the values that can be shared. *)
Definition is_object (v : value) : bool :=
  match v with
  | VArray _ _ | VObject _ => true
  | _ => false
  end.

(** [args.k1.k2...] for the path [k1; k2; ...]. *)
Definition follow (args : value) (path : list string) : value :=
  fold_left get path args.

(** What a linked value holds, given what [ev.args] holds now. A path
    that leads to no object shares nothing: there the value is
    [undefined]. *)
Fixpoint read (args : value) (l : linked) : value :=
  match l with
  | Own v => v
  | Shared path =>
      if is_object (follow args path) then follow args path else VUndefined
  | LinkedArray elems props =>
      VArray (map (read args) elems)
        (map (fun kv => (kv.1, read args kv.2)) props)
  | LinkedObject props =>
      VObject (map (fun kv => (kv.1, read args kv.2)) props)
  end.

(** The inbound message [ev.data], typed by the wire contract
    [{type, args, dbId, messageId, departureTime}]: the command type is a
    string and the handle id an optional string; [messageId] and
    [departureTime] are any values, which may share objects with [args]. *)
Record Request : Type := mkRequest {
  ev_type : string;
  ev_args : value;
  ev_dbId : option string;
  ev_messageId : linked;
  ev_departureTime : linked
}.

Definition value_of_dbId (id : option string) : value :=
  match id with
  | Some s => VStr s
  | None => VUndefined
  end.

(** The payload built in the [catch] branch of the dispatcher. [input]
    is the inbound message object itself. *)
Record ErrorPayload : Type := mkErrorPayload {
  operation : string;
  message : string;
  errorClass : string;
  input : Request;
  stack : value
}.

Inductive Result : Type :=
| Success (payload : value)
| Failure (payload : ErrorPayload).

(** The response posted by the dispatcher for one inbound message. *)
Record Envelope : Type := mkEnvelope {
  type : string;
  dbId : value;
  messageId : value;
  workerReceivedTime : value;
  workerRespondTime : value;
  departureTime : value;
  result : Result
}.

(** [{type: callbackMsgType, rowNumber: ..., row: ...}]. *)
Record RowMessage : Type := mkRowMessage {
  row_type : value;
  rowNumber : value;
  row : value
}.

Inductive Payload : Type :=
| StreamRow (m : RowMessage)
| Response (e : Envelope).

(** A transferable buffer, by identity. *)
Abbreviation blob := nat.

(** One call of [self.postMessage]: the message and its transfer list. *)
Record Posted : Type := mkPosted {
  posted_msg : Payload;
  posted_transfer : list blob
}.

(** ** The world of the worker *)

(** A [DB] object of the OO API, as far as the worker looks at it:
    [db.pointer] ([None] once the connection is closed), [db.filename]
    and the answer of [db.fileName()]. *)
Record DB : Type := mkDB {
  db_pointer : option positive;
  db_filename : string;
  db_fileName : string
}.

(** References to [DB] objects: the position of the object in the heap.
    Object identity ([===], [WeakMap] keys) is equality of references. *)
Abbreviation dbref := nat.

(** The fields of [wState]. [idMap] is a [WeakMap]; the model keeps every
    entry, which is what the worker observes of the objects it can still
    reach. *)
Record wState : Type := mkwState {
  defaultDb : option dbref;
  idSeq : N;
  idMap : gmap dbref string;
  xfer : list blob;
  dbs : gmap string dbref
}.

Record World : Type := mkWorld {
  wstate : wState;
  heap : list DB;
  unlinked : list string;
  outbox : list Posted
}.

Definition initial_wState : wState :=
  mkwState None 0%N ∅ [] ∅.

(** The world right after [initWorker1API] has run: the readiness
    announcement is not part of the request/response traffic and is left
    out of the [outbox]. *)
Definition initial_World : World :=
  mkWorld initial_wState [] [] [].

Definition with_wstate (f : wState → wState) (w : World) : World :=
  mkWorld (f (wstate w)) (heap w) (unlinked w) (outbox w).
Definition with_heap (f : list DB → list DB) (w : World) : World :=
  mkWorld (wstate w) (f (heap w)) (unlinked w) (outbox w).
Definition with_unlinked (f : list string → list string) (w : World) : World :=
  mkWorld (wstate w) (heap w) (f (unlinked w)) (outbox w).
Definition with_outbox (f : list Posted → list Posted) (w : World) : World :=
  mkWorld (wstate w) (heap w) (unlinked w) (f (outbox w)).

Definition set_defaultDb (d : option dbref) (s : wState) : wState :=
  mkwState d (idSeq s) (idMap s) (xfer s) (dbs s).
Definition set_idSeq (n : N) (s : wState) : wState :=
  mkwState (defaultDb s) n (idMap s) (xfer s) (dbs s).
Definition set_idMap (m : gmap dbref string) (s : wState) : wState :=
  mkwState (defaultDb s) (idSeq s) m (xfer s) (dbs s).
Definition set_xfer (x : list blob) (s : wState) : wState :=
  mkwState (defaultDb s) (idSeq s) (idMap s) x (dbs s).
Definition set_dbs (m : gmap string dbref) (s : wState) : wState :=
  mkwState (defaultDb s) (idSeq s) (idMap s) (xfer s) m.

(** Computations of the worker: they read and write the world and either
    return or throw. *)
Definition M (A : Type) : Type := World → outcome A * World.

Definition ret {A} (a : A) : M A := fun w => (Returns a, w).
Definition throw {A} (e : Error) : M A := fun w => (Throws e, w).
Definition bind {A B} (m : M A) (k : A → M B) : M B :=
  fun w =>
    match m w with
    | (Returns a, w') => k a w'
    | (Throws e, w') => (Throws e, w')
    end.
Definition modify (f : World → World) : M unit := fun w => (Returns tt, f w).
Definition gets {A} (f : World → A) : M A := fun w => (Returns (f w), w).

Notation "'let*' x ':=' m 'in' k" := (bind m (fun x => k))
  (at level 10, x name, m at level 100, k at level 200).
Notation "m ';;' k" := (bind m (fun _ => k))
  (at level 100, k at level 200, right associativity).

(** ** Collaborators *)

(** What [new DB(filename)] does: it throws, or it returns a fresh object
    with a non-null [pointer], a [filename] and an answer of [fileName()]. *)
Inductive OpenReply : Type :=
| OpenThrows (e : Error)
| OpenReturns (pointer : positive) (filename fileName : string).

(** One result row of the engine, with the buffers of its blob columns
    (which the engine pushes onto [db._blobXfer] when that is set). *)
Record RowEvent : Type := mkRowEvent {
  produced_row : value;
  produced_blobs : list blob
}.

(** What one call of [db.exec(rc)] does: the rows it produces, in order,
    the column names, and whether it throws after these rows. *)
Record ExecReply : Type := mkExecReply {
  produced : list RowEvent;
  column_names : list value;
  exec_throws : option Error
}.

(** The answers of the collaborators while one message is served. *)
Record Env : Type := mkEnv {
  (** [sqlite3.capi.sqlite3_web_persistent_dir()]; empty when there is
      no persistent storage *)
  persistent_dir : string;
  (** the own properties of [sqlite3.config] *)
  config : obj;
  (** [new DB(filename)] *)
  new_DB : value → OpenReply;
  (** [db.exec(rc)], for the handle it is called on *)
  db_exec : dbref → ExecReply;
  (** the two readings of [performance.now()] *)
  now_arrival : value;
  now_respond : value;
  (** [err.stack] *)
  stack_of : Error → value
}.

(** ** The registry: [getDbId] and [wState] *)

(** [db.pointer], as a value and as the text that string concatenation
    makes of it. *)
Definition pointer_of (db : dbref) (w : World) : option positive :=
  match heap w !! db with
  | Some o => db_pointer o
  | None => None
  end.

Definition pointer_string (p : option positive) : string :=
  match p with
  | Some p => string_of_pos p
  | None => "undefined"
  end.

(** ['db#'+seq+'@'+pointer]. *)
Definition make_id (seq : N) (p : option positive) : string :=
  "db#" +:+ string_of_N seq +:+ "@" +:+ pointer_string p.

Definition mint_id (db : dbref) : M string :=
  fun w =>
    let seq := (idSeq (wstate w) + 1)%N in
    let id := make_id seq (pointer_of db w) in
    (Returns id,
     with_wstate (fun s => set_idMap (<[db := id]> (idMap s)) (set_idSeq seq s)) w).

Definition getDbId (db : dbref) : M string :=
  let* id := gets (fun w => idMap (wstate w) !! db) in
  match id with
  | Some id => if truthy (VStr id) then ret id else mint_id db
  | None => mint_id db
  end.

(** [wState.open(opt)]. *)
Definition wState_open (env : Env) (opt : value) : M dbref :=
  match new_DB env (get opt "filename") with
  | OpenThrows e => throw e
  | OpenReturns p fn fN =>
      let* db := gets (fun w => length (heap w)) in
      modify (with_heap (fun h => h ++ [mkDB (Some p) fn fN])) ;;
      let* id := getDbId db in
      modify (with_wstate (fun s => set_dbs (<[id := db]> (dbs s)) s)) ;;
      modify (with_wstate (fun s =>
        match defaultDb s with
        | None => set_defaultDb (Some db) s
        | Some _ => s
        end)) ;;
      ret db
  end.

(** Modelled from the spec: [fileName(handle) -> string] of the engine,
    which is not part of this file. *)
Definition db_fileName_of (db : dbref) (w : World) : string :=
  match heap w !! db with
  | Some o => db_fileName o
  | None => ""
  end.

(** Modelled from the spec: [close(handle) -> void] of the engine, which
    is not part of this file; a closed handle has no [pointer]. *)
Definition db_close (db : dbref) (w : World) : World :=
  with_heap (fun h =>
    match h !! db with
    | Some o => <[db := mkDB None (db_filename o) (db_fileName o)]> h
    | None => h
    end) w.

(** [wState.close(db, alsoUnlink)]. *)
Definition wState_close (db : option dbref) (alsoUnlink : bool) : M unit :=
  match db with
  | None => ret tt
  | Some db =>
      let* id := getDbId db in
      modify (with_wstate (fun s => set_dbs (delete id (dbs s)) s)) ;;
      let* filename := gets (db_fileName_of db) in
      modify (db_close db) ;;
      modify (with_wstate (fun s =>
        if decide (defaultDb s = Some db) then set_defaultDb None s else s)) ;;
      if alsoUnlink && truthy (VStr filename)
      then modify (with_unlinked (fun l => l ++ [filename]))
      else ret tt
  end.

(** [wState.post(msg, xferList)]. The only list ever passed as [xferList]
    is [wState.xfer] itself, so the argument is whether it is passed. *)
Definition wState_post (msg : Payload) (xferList : bool) (w : World) : World :=
  if xferList && negb (length (xfer (wstate w)) =? 0)%nat
  then with_wstate (set_xfer [])
         (with_outbox (fun o => o ++ [mkPosted msg (xfer (wstate w))]) w)
  else with_outbox (fun o => o ++ [mkPosted msg []]) w.

(** The property key that [this.dbs[id]] looks up. *)
Definition dbs_key (id : option string) : string :=
  js_to_string (value_of_dbId id).

(** [wState.getDb(id, require)]. *)
Definition wState_getDb (id : option string) (require : bool) : M (option dbref) :=
  let* db := gets (fun w => dbs (wstate w) !! dbs_key id) in
  match db with
  | Some db => ret (Some db)
  | None =>
      if require
      then throw (toss [VStr "Unknown (or closed) DB ID:"; value_of_dbId id])
      else ret None
  end.

(** [affirmDbOpen(db = wState.defaultDb)]. *)
Definition affirmDbOpen (db : option dbref) : M dbref :=
  let* db := gets (fun w => match db with
                            | None => defaultDb (wstate w)
                            | Some _ => db
                            end) in
  match db with
  | None => throw (toss [VStr "DB is not opened."])
  | Some r =>
      let* p := gets (pointer_of r) in
      match p with
      | Some _ => ret r
      | None => throw (toss [VStr "DB is not opened."])
      end
  end.

(** [getMsgDb(msgData, affirmExists)]. *)
Definition getMsgDb (msgData : Request) (affirmExists : bool) : M (option dbref) :=
  let* found := wState_getDb (ev_dbId msgData) false in
  let* db := gets (fun w => match found with
                            | Some _ => found
                            | None => defaultDb (wstate w)
                            end) in
  if affirmExists
  then let* r := affirmDbOpen db in ret (Some r)
  else ret db.

(** [getDefaultDbId()]. *)
Definition getDefaultDbId : M value :=
  let* d := gets (fun w => defaultDb (wstate w)) in
  match d with
  | None => ret VUndefined
  | Some db => let* id := getDbId db in ret (VStr id)
  end.

(** ** The command table: [wMsgHandler] *)

(** [db.filename], a property that the engine sets when it opens the
    handle. *)
Definition db_filename_of (db : dbref) (w : World) : string :=
  match heap w !! db with
  | Some o => db_filename o
  | None => ""
  end.

(** The file name that [open] hands to the [DB] constructor. *)
Definition open_filename (pDir : string) (args : value) : value :=
  let filename := get args "filename" in
  if negb (truthy filename) || is_str filename ":memory:"
  then js_or filename (VStr "")
  else if truthy (VStr pDir)
  then VStr (pDir +:+ (if is_str (index0 filename) "/"
                       then js_to_string filename
                       else "/" +:+ js_to_string filename))
  else filename.

Definition wMsgHandler_open (env : Env) (ev : Request) : M value :=
  let args := js_or (ev_args ev) (VObject []) in
  if truthy (get args "simulateError")
  then throw (toss [VStr "Throwing because of simulateError flag."])
  else
    let pDir := persistent_dir env in
    let oargs := VObject [("filename", open_filename pDir args)] in
    let* db := wState_open env oargs in
    let* filename := gets (db_filename_of db) in
    let* id := getDbId db in
    ret (VObject [("filename", VStr filename);
                  ("persistent",
                   VBool (truthy (VStr pDir) && String.prefix pDir filename));
                  ("dbId", VStr id)]).

Definition wMsgHandler_close (ev : Request) : M value :=
  let* db := getMsgDb ev false in
  match db with
  | None =>
      ret (VObject [("filename", VUndefined); ("dbId", VUndefined)])
  | Some r =>
      let* filename := gets (db_filename_of r) in
      let* id := getDbId r in
      wState_close (Some r)
        (if truthy (ev_args ev) && typeof_object (ev_args ev)
         then truthy (get (ev_args ev) "unlink")
         else false) ;;
      ret (VObject [("filename", VStr filename); ("dbId", VStr id)])
  end.

(** [rc.callback(row)] for the arrow function installed by [exec]:
    [(row)=>wState.post({type: callbackMsgType, rowNumber: ++rowNumber,
    row: row}, wState.xfer)]. The counter is returned incremented. *)
Definition call_RowPoster (callbackMsgType : string) (rowNumber : N) (r : value)
    (w : World) : N * World :=
  let n := (rowNumber + 1)%N in
  (n, wState_post
        (StreamRow (mkRowMessage (VStr callbackMsgType) (VNum (Z.of_N n)) r))
        true w).

(** [arr.push(x)] on the array held by property [k] of [rc], when it is
    one. *)
Definition push_into (rc : value) (k : string) (x : value) : value :=
  match get rc k with
  | VArray l o => default rc (put rc k (VArray (l ++ [x]) o))
  | _ => rc
  end.

(** Modelled from the spec: the engine's [exec(options)], which is not
    part of this file, mutates [options.resultRows] and
    [options.columnNames] in place and invokes the row callback
    synchronously, once for each produced row and in order; blob buffers
    go to [db._blobXfer] when the worker has set it. [blobXfer] tells
    whether [db._blobXfer] is set (it is then [wState.xfer]), and
    [rowNumber] is the counter of the installed callback. *)
Fixpoint engine_rows (blobXfer : bool) (rows : list RowEvent)
    (rc : value) (rowNumber : N) (w : World) : value * N * World :=
  match rows with
  | [] => (rc, rowNumber, w)
  | r :: rest =>
      let w1 :=
        if blobXfer
        then with_wstate (fun s => set_xfer (xfer s ++ produced_blobs r) s) w
        else w in
      let rc1 := push_into rc "resultRows" (produced_row r) in
      let '(n, w2) :=
        match get rc1 "callback" with
        | VFunction (RowPoster t) => call_RowPoster t rowNumber (produced_row r) w1
        | _ => (rowNumber, w1)
        end in
      engine_rows blobXfer rest rc1 n w2
  end.

(** Modelled from the spec: one call of the engine's [exec(options)],
    which is not part of this file, with the given answer: the column
    names and the rows are delivered, then the call returns or throws. *)
Definition engine_exec (reply : ExecReply) (blobXfer : bool) (rc : value)
    (w : World) : outcome unit * value * World :=
  let rc0 := fold_left (fun c x => push_into c "columnNames" x)
               (column_names reply) rc in
  let '(rc1, _, w1) := engine_rows blobXfer (produced reply) rc0 0%N w in
  match exec_throws reply with
  | Some e => (Throws e, rc1, w1)
  | None => (Returns tt, rc1, w1)
  end.

(** The exception of a strict-mode assignment to a property of a
    primitive value; the text of its message is the host's. *)
Definition TypeError_assign (k : string) : Error :=
  mkError "TypeError" ("Cannot create property '" +:+ k +:+ "'").

(** The inbound message after [rc], which is [ev.args] itself whenever
    [ev.args] is a truthy non-string, has been mutated in place. The
    other properties of the message are the same values and objects as
    before; those of them that are linked to [ev.args] are read through
    the mutated object from now on ([read]). *)
Definition with_args (aliased : bool) (rc : value) (ev : Request) : Request :=
  if aliased
  then mkRequest (ev_type ev) rc (ev_dbId ev) (ev_messageId ev)
         (ev_departureTime ev)
  else ev.

(** The body of [exec] from [const db = getMsgDb(ev)] on; [rc] already
    carries its [rowMode]. The options object is returned in both
    outcomes, as the caller of a throwing [exec] still holds it through
    [ev.args]. *)
Definition exec_body (env : Env) (ev : Request) (rc : value)
    (w : World) : outcome value * value * World :=
  match getMsgDb ev true w with
  | (Throws e, w1) => (Throws e, rc, w1)
  | (Returns None, w1) =>
      (* not reached: [affirmDbOpen] returns a handle or throws *)
      (Throws (TypeError_assign "_blobXfer"), rc, w1)
  | (Returns (Some db), w1) =>
      let blobXfer := truthy (get rc "callback") || isArray (get rc "resultRows") in
      let callbackMsgType := get rc "callback" in
      let rc1 :=
        match callbackMsgType with
        | VStr t => default rc (put rc "callback" (VFunction (RowPoster t)))
        | _ => rc
        end in
      (* try *)
      let '(r, rc2, w2) := engine_exec (db_exec env db) blobXfer rc1 w1 in
      let '(r3, rc3, w3) :=
        match r with
        | Returns _ =>
            if instanceof_Function (get rc2 "callback")
            then (Returns tt,
                  default rc2 (put rc2 "callback" callbackMsgType),
                  wState_post
                    (StreamRow (mkRowMessage callbackMsgType VNull VUndefined))
                    false w2)
            else (Returns tt, rc2, w2)
        | Throws e => (Throws e, rc2, w2)
        end in
      (* finally *)
      let rc4 :=
        if truthy (get rc3 "callback")
        then default rc3 (put rc3 "callback" callbackMsgType)
        else rc3 in
      match r3 with
      | Returns _ => (Returns rc4, rc4, w3)
      | Throws e => (Throws e, rc4, w3)
      end
  end.

(** [wMsgHandler.exec(ev)]: the outcome, the inbound message after the
    call, and the world after the call. *)
Definition wMsgHandler_exec (env : Env) (ev : Request)
    (w : World) : outcome value * Request * World :=
  let aliased := negb (typeof_string (ev_args ev)) && truthy (ev_args ev) in
  let rc :=
    if typeof_string (ev_args ev) then VObject [("sql", ev_args ev)]
    else js_or (ev_args ev) (VObject []) in
  match get rc "rowMode" with
  | VUndefined =>
      match put rc "rowMode" (VStr "array") with
      | None => (Throws (TypeError_assign "rowMode"), ev, w)
      | Some rc' =>
          let '(r, rc'', w') := exec_body env ev rc' w in
          (r, with_args aliased rc'' ev, w')
      end
  | rowMode =>
      if is_str rowMode "stmt"
      then (Throws (toss [VStr "Invalid rowMode for 'exec': stmt mode";
                          VStr "does not work in the Worker API."]), ev, w)
      else
        let '(r, rc'', w') := exec_body env ev rc w in
        (r, with_args aliased rc'' ev, w')
  end.

Definition wMsgHandler_config_get (env : Env) : M value :=
  let copy (rc : obj) (k : string) : obj :=
    match lookup_prop (config env) k with
    | Some v => set_prop rc k v
    | None => rc
    end in
  let rc := fold_left copy ["persistentDirName"; "bigIntEnabled"] [] in
  ret (VObject (set_prop rc "persistenceEnabled"
                  (VBool (truthy (VStr (persistent_dir env)))))).

Definition wMsgHandler_export (ev : Request) : M value :=
  throw (toss [VStr "export() requires reimplementing for portability reasons."]).

Definition wMsgHandler_toss (ev : Request) : M value :=
  throw (toss [VStr "Testing worker exception"]).

(** ** The dispatcher: [self.onmessage] *)

(** The [try] block: [wMsgHandler[evType](ev)] when [evType] names a
    method of [wMsgHandler], else [toss]. Only [exec] mutates the inbound
    message. *)
Definition dispatch (env : Env) (ev : Request)
    (w : World) : outcome value * Request * World :=
  let handled (m : M value) := let '(r, w') := m w in (r, ev, w') in
  let evType := ev_type ev in
  if String.eqb evType "open" then handled (wMsgHandler_open env ev)
  else if String.eqb evType "close" then handled (wMsgHandler_close ev)
  else if String.eqb evType "exec" then wMsgHandler_exec env ev w
  else if String.eqb evType "config-get" then handled (wMsgHandler_config_get env)
  else if String.eqb evType "export" then handled (wMsgHandler_export ev)
  else if String.eqb evType "toss" then handled (wMsgHandler_toss ev)
  else handled (throw (toss [VStr "Unknown db worker message type:";
                             VStr (ev_type ev)])).

(** The [catch] block. *)
Definition error_result (env : Env) (ev : Request) (err : Error) : ErrorPayload :=
  mkErrorPayload (ev_type ev) (err_message err) (err_name err) ev
    (let st := stack_of env err in
     if truthy st
     then match st with
          | VStr text => VArray (map VStr (split_lines text)) []
          | _ => st
          end
     else VUndefined).

(** [result.dbId]: the error payload has no such property. *)
Definition result_dbId (r : Result) : value :=
  match r with
  | Success v => get v "dbId"
  | Failure _ => VUndefined
  end.

Definition onmessage (env : Env) (ev : Request) (w : World) : World :=
  let dbId := value_of_dbId (ev_dbId ev) in
  let evType := ev_type ev in
  let arrivalTime := now_arrival env in
  (* [ev'] is the inbound message object after the handler has run *)
  let '(r, ev', w1) := dispatch env ev w in
  let '(evType, result) :=
    match r with
    | Returns v => (evType, Success v)
    | Throws err => ("error", Failure (error_result env ev' err))
    end in
  let resolved : outcome value * World :=
    if negb (truthy dbId)
    then if truthy (result_dbId result)
         then (Returns (result_dbId result), w1)
         else getDefaultDbId w1
    else (Returns dbId, w1) in
  match resolved with
  | (Returns dbId, w2) =>
      wState_post
        (Response (mkEnvelope evType dbId
                     (read (ev_args ev') (ev_messageId ev')) arrivalTime
                     (now_respond env)
                     (read (ev_args ev') (ev_departureTime ev')) result))
        true w2
  | (Throws _, w2) =>
      (* not reached: [getDefaultDbId] does not throw *)
      w2
  end.

(** The worker serves its queue in arrival order. *)
Fixpoint run (queue : list (Env * Request)) (w : World) : World :=
  match queue with
  | [] => w
  | (env, ev) :: rest => run rest (onmessage env ev w)
  end.

(** The worlds the worker can be in: those reached from the initial one
    by serving messages. *)
Inductive reachable : World → Prop :=
| reachable_initial : reachable initial_World
| reachable_onmessage env ev w :
    reachable w → reachable (onmessage env ev w).

(** ** Observations on the outbox *)

(** The response to the message served last. *)
Definition last_response (w : World) : option Envelope :=
  match last (outbox w) with
  | Some (mkPosted (Response e) _) => Some e
  | _ => None
  end.

(** The messages posted so far, without their transfer lists. *)
Definition messages (w : World) : list Payload := map posted_msg (outbox w).

(** What has been posted on the way from [w] to [w']: the messages of
    [w'] that [w] did not have. *)
Definition posted_since (w w' : World) : list Payload :=
  drop (length (outbox w)) (messages w').

(** * Notions used in the statements *)

(** ** The registry *)

(** What holds of the registry in every world the worker can reach:
    every minted identifier belongs to an allocated object and carries a
    sequence number that has been used; every entry of [dbs] is filed
    under the identifier of its handle, and that handle is open; the
    default handle is an entry of [dbs]. *)
Record Inv (w : World) : Prop := mkInv {
  inv_ids : ∀ r id, idMap (wstate w) !! r = Some id →
    r < length (heap w) ∧
    ∃ n p, id = make_id n p ∧ (n ≤ idSeq (wstate w))%N;
  inv_dbs : ∀ id r, dbs (wstate w) !! id = Some r →
    idMap (wstate w) !! r = Some id ∧ is_Some (pointer_of r w);
  inv_default : ∀ d, defaultDb (wstate w) = Some d →
    ∃ id, dbs (wstate w) !! id = Some d
}.

(** Two worlds with the same registry and the same objects. *)
Definition same_registry (w w' : World) : Prop :=
  defaultDb (wstate w') = defaultDb (wstate w) ∧
  idSeq (wstate w') = idSeq (wstate w) ∧
  idMap (wstate w') = idMap (wstate w) ∧
  dbs (wstate w') = dbs (wstate w) ∧
  heap w' = heap w.

(** What [exec] leaves of the inbound message: its type, its handle id,
    and which values or objects its [messageId] and [departureTime] are.
    What a field that is linked to [args] holds follows [args]. *)
Definition same_envelope (ev ev' : Request) : Prop :=
  ev_type ev' = ev_type ev ∧ ev_dbId ev' = ev_dbId ev ∧
  ev_messageId ev' = ev_messageId ev ∧
  ev_departureTime ev' = ev_departureTime ev.

(** The handle that a message is routed to: the one filed under its
    handle id, else the default one. *)
Definition routed (id : option string) (w : World) : option dbref :=
  match dbs (wstate w) !! dbs_key id with
  | Some r => Some r
  | None => defaultDb (wstate w)
  end.

(** Resolution as [getMsgDb] does it: the identified handle when the
    identifier names an entry of [dbs], and the default handle in every
    other case; a failure ([None]) when there is no default either. *)
Definition resolve (id : option string) (w : World) : option dbref :=
  match id with
  | Some i =>
      match dbs (wstate w) !! i with
      | Some r => Some r
      | None => defaultDb (wstate w)
      end
  | None => defaultDb (wstate w)
  end.

(** Resolution in the words of the specification: the identified handle
    when an identifier is supplied, the default handle when none is, and
    a failure ([None]) when that does not name an open handle. *)
Definition spec_resolve (id : option string) (w : World) : option dbref :=
  match id with
  | Some i => dbs (wstate w) !! i
  | None => defaultDb (wstate w)
  end.

(** The claim as the specification words it, for one message. *)
Definition spec_resolution_holds (ev : Request) (w : World) : Prop :=
  match spec_resolve (ev_dbId ev) w with
  | Some r => getMsgDb ev true w = (Returns (Some r), w)
  | None => ∃ e, getMsgDb ev true w = (Throws e, w)
  end.

(** The identifier recorded for a handle. *)
Definition id_of (r : dbref) (w : World) : string :=
  default "" (idMap (wstate w) !! r).

(** The identifier of the default handle, as [getDefaultDbId] reports
    it. *)
Definition default_id (w : World) : value :=
  match defaultDb (wstate w) with
  | Some d => VStr (id_of d w)
  | None => VUndefined
  end.

Fixpoint all_digits (s : string) : bool :=
  match s with
  | EmptyString => true
  | String c s' =>
      (if Ascii.eqb c "@" then false else true) && all_digits s'
  end.

(** ** The worlds after [open] and [close] *)

(** The world after a successful [wState.open]: a fresh object, a fresh
    identifier, one more entry of [dbs], and the default handle set if
    there was none. *)
Definition opened_id (p : positive) (w : World) : string :=
  make_id (idSeq (wstate w) + 1) (Some p).

Definition opened_World (p : positive) (fn fN : string) (w : World) : World :=
  let db := length (heap w) in
  mkWorld
    (mkwState
       (match defaultDb (wstate w) with None => Some db | Some d => Some d end)
       (idSeq (wstate w) + 1)%N
       (<[db := opened_id p w]> (idMap (wstate w)))
       (xfer (wstate w))
       (<[opened_id p w := db]> (dbs (wstate w))))
    (heap w ++ [mkDB (Some p) fn fN])
    (unlinked w)
    (outbox w).

(** The answer of the engine to the [open] of a message: what
    [new DB(filename)] does for the file name computed from [ev.args]. *)
Definition open_reply (env : Env) (ev : Request) : OpenReply :=
  new_DB env (open_filename (persistent_dir env)
                (js_or (ev_args ev) (VObject []))).

(** The world after [wState.close] of a registered handle. *)
Definition closed_World (r : dbref) (alsoUnlink : bool) (w : World) : World :=
  mkWorld
    (mkwState
       (if decide (defaultDb (wstate w) = Some r) then None
        else defaultDb (wstate w))
       (idSeq (wstate w))
       (idMap (wstate w))
       (xfer (wstate w))
       (delete (id_of r w) (dbs (wstate w))))
    (match heap w !! r with
     | Some o => <[r := mkDB None (db_filename o) (db_fileName o)]> (heap w)
     | None => heap w
     end)
    (if alsoUnlink && truthy (VStr (db_fileName_of r w))
     then unlinked w ++ [db_fileName_of r w]
     else unlinked w)
    (outbox w).

(** [ev.args && 'object'===typeof ev.args ? !!ev.args.unlink : false]. *)
Definition unlink_requested (ev : Request) : bool :=
  if truthy (ev_args ev) && typeof_object (ev_args ev)
  then truthy (get (ev_args ev) "unlink")
  else false.

(** A [close] that does nothing: it is answered by one response, of type
    [close], whose payload has [filename] and [dbId] undefined, and it
    leaves the registry, the objects and the file system as they were. *)
Definition close_is_noop (env : Env) (ev : Request) (w : World) : Prop :=
  ∃ resp,
    posted_since w (onmessage env ev w) = [Response resp] ∧
    type resp = "close" ∧
    result resp =
      Success (VObject [("filename", VUndefined); ("dbId", VUndefined)]) ∧
    same_registry w (onmessage env ev w) ∧
    unlinked (onmessage env ev w) = unlinked w.

(** ** The response of the dispatcher *)

(** The result part of the response to an outcome of the [try] block. *)
Definition result_of (env : Env) (r : outcome value) (ev' : Request) : Result :=
  match r with
  | Returns v => Success v
  | Throws err => Failure (error_result env ev' err)
  end.

(** The envelope that answers message [ev] when the [try] block ended
    with outcome [r], left the message as [ev'] and the world as [w1]. *)
Definition response_to (env : Env) (ev : Request) (r : outcome value)
    (ev' : Request) (w1 : World) : Envelope :=
  mkEnvelope
    (match r with Returns _ => ev_type ev | Throws _ => "error" end)
    (if truthy (value_of_dbId (ev_dbId ev)) then value_of_dbId (ev_dbId ev)
     else if truthy (result_dbId (result_of env r ev'))
          then result_dbId (result_of env r ev')
          else default_id w1)
    (read (ev_args ev') (ev_messageId ev')) (now_arrival env) (now_respond env)
    (read (ev_args ev') (ev_departureTime ev')) (result_of env r ev').

(** The precedence in the words of the specification: the handler's
    returned handle id, else the request's, else the default's. *)
Definition spec_response_dbId (handler request default : value) : value :=
  if truthy handler then handler
  else if truthy request then request
  else default.

(** The claim as the specification words it, for one message. *)
Definition spec_precedence_holds (env : Env) (ev : Request) (w : World) : Prop :=
  ∃ resp,
    last_response (onmessage env ev w) = Some resp ∧
    dbId resp =
      spec_response_dbId (result_dbId (result resp))
        (value_of_dbId (ev_dbId ev)) (default_id (onmessage env ev w)).

(** ** The correlation id *)

(** The [messageId] of a request as the client sent it. *)
Definition sent_messageId (ev : Request) : value :=
  read (ev_args ev) (ev_messageId ev).

(** The claim as the specification words it, for one message: the
    response carries the [messageId] that was sent. *)
Definition spec_mirrors_messageId (env : Env) (ev : Request) (w : World) : Prop :=
  ∃ resp,
    last_response (onmessage env ev w) = Some resp ∧
    messageId resp = sent_messageId ev.

(** The inbound message object as the handler left it. *)
Definition message_after (env : Env) (ev : Request) (w : World) : Request :=
  (dispatch env ev w).1.2.

(** The objects of a message that [exec] or the engine writes to: the
    options object itself, which gets its [rowMode], and the arrays it
    holds under [resultRows] and [columnNames]. A path from [args] may
    lead to such an object when it is empty or starts with one of these
    names. *)
Definition written_by_exec (path : list string) : bool :=
  match path with
  | [] => true
  | k :: _ =>
      String.eqb k "rowMode" || String.eqb k "resultRows"
      || String.eqb k "columnNames"
  end.

(** A linked value that shares no object that [exec] writes to. *)
Fixpoint untouched_by_exec (l : linked) : bool :=
  match l with
  | Own _ => true
  | Shared path => negb (written_by_exec path)
  | LinkedArray elems props =>
      forallb untouched_by_exec elems
      && forallb (fun kv => untouched_by_exec kv.2) props
  | LinkedObject props => forallb (fun kv => untouched_by_exec kv.2) props
  end.

Definition is_StreamRow (m : Payload) : Prop :=
  match m with
  | StreamRow _ => True
  | Response _ => False
  end.

(** [w'] has the messages of [w] and then only row messages. *)
Definition rows_posted (w w' : World) : Prop :=
  ∃ l, messages w' = messages w ++ l ∧ Forall is_StreamRow l.

(** What the [try] block of the dispatcher does to the registry: it
    opens a handle, or it closes the handle the message is routed to, or
    it leaves the registry alone and its result is not that of an [open]
    or of an effective [close]. *)
Inductive served (env : Env) (ev : Request) (w : World) : Prop :=
| served_open p fn fN :
    ev_type ev = "open" →
    dispatch env ev w =
      (Returns (VObject [("filename", VStr fn);
                         ("persistent",
                          VBool (truthy (VStr (persistent_dir env))
                                 && String.prefix (persistent_dir env) fn));
                         ("dbId", VStr (opened_id p w))]),
       ev, opened_World p fn fN w) →
    served env ev w
| served_close r :
    ev_type ev = "close" →
    resolve (ev_dbId ev) w = Some r →
    dispatch env ev w =
      (Returns (VObject [("filename", VStr (db_filename_of r w));
                         ("dbId", VStr (id_of r w))]),
       ev, closed_World r (unlink_requested ev) w) →
    served env ev w
| served_other :
    same_registry w (dispatch env ev w).2 →
    rows_posted w (dispatch env ev w).2 →
    match (dispatch env ev w).1.1 with
    | Returns v =>
        ev_type ev ≠ "open" ∧
        (ev_type ev = "close" →
         resolve (ev_dbId ev) w = None ∧ get v "dbId" = VUndefined)
    | Throws _ => ev_type ev ≠ "close"
    end →
    served env ev w.

(** ** The history told by the responses *)

(** The handle identifier that a message reports as opened: the [dbId]
    of the result of a response of type [open]. *)
Definition opened_identifier (m : Payload) : option value :=
  match m with
  | Response e =>
      match result e with
      | Success v =>
          if String.eqb (type e) "open" then Some (get v "dbId") else None
      | Failure _ => None
      end
  | StreamRow _ => None
  end.

(** The identifiers returned by the successful [open] commands served so
    far, in order. *)
Definition opened_identifiers (w : World) : list value :=
  omap opened_identifier (messages w).

(** The identifiers reported so far are pairwise distinct, and they are
    the identifiers on record in [idMap], that is, all the identifiers
    minted so far. *)
Definition identifiers_distinct (w : World) : Prop :=
  NoDup (opened_identifiers w) ∧
  (∀ v, v ∈ opened_identifiers w →
     ∃ r id, v = VStr id ∧ idMap (wstate w) !! r = Some id) ∧
  (∀ r id, idMap (wstate w) !! r = Some id →
     VStr id ∈ opened_identifiers w).

(** ** The default handle *)

(** An [open] request that the engine answers with a handle: the request
    does not ask for the simulated error, and [new DB(filename)]
    returns. *)
Definition opens (env : Env) (ev : Request) : bool :=
  String.eqb (ev_type ev) "open" &&
  negb (truthy (get (js_or (ev_args ev) (VObject [])) "simulateError")) &&
  match open_reply env ev with
  | OpenReturns _ _ _ => true
  | OpenThrows _ => false
  end.

(** The handle that a [close] request is addressed to: the one filed
    under the identifier it names, or the default handle when it names
    none. *)
Definition closes (ev : Request) (w : World) : option dbref :=
  if String.eqb (ev_type ev) "close"
  then match ev_dbId ev with
       | Some i => dbs (wstate w) !! i
       | None => defaultDb (wstate w)
       end
  else None.

(** Handle [d] is the first handle opened since the default was last
    clear: some message of the queue found no default designated and
    opened [d], and [d] has been the default after every message served
    since. *)
Definition designated_since (queue : list (Env * Request)) (d : dbref) : Prop :=
  ∃ before env ev after,
    queue = before ++ (env, ev) :: after ∧
    defaultDb (wstate (run before initial_World)) = None ∧
    opens env ev = true ∧
    d = length (heap (run before initial_World)) ∧
    ∀ served rest, after = served ++ rest →
      defaultDb (wstate (run (before ++ (env, ev) :: served) initial_World)) =
        Some d.

(** ** Streams *)

(** The row messages that the installed callback posts for the given
    rows when its counter stands at [n]. *)
Fixpoint row_messages_from (t : string) (n : N) (rows : list value) : list Payload :=
  match rows with
  | [] => []
  | r :: rest =>
      StreamRow (mkRowMessage (VStr t) (VNum (Z.of_N (n + 1))) r)
        :: row_messages_from t (n + 1) rest
  end.

(** The row message of stream [t] for the row at position [i] (from 0):
    its sequence number is [i + 1]. *)
Definition row_message (t : string) (i : nat) (r : value) : Payload :=
  StreamRow (mkRowMessage (VStr t) (VNum (Z.of_nat (S i))) r).

(** The end-of-results message for stream [t]. *)
Definition end_of_rows (t : string) : Payload :=
  StreamRow (mkRowMessage (VStr t) VNull VUndefined).

(** What a streaming [exec] posts before its response: one row message
    for each produced row, and the end-of-results message if the engine
    returned. *)
Definition streamed (t : string) (reply : ExecReply) : list Payload :=
  row_messages_from t 0 (map produced_row (produced reply)) ++
  match exec_throws reply with
  | None => [end_of_rows t]
  | Some _ => []
  end.

Definition exec_outcome (reply : ExecReply) (rc : value) : outcome value :=
  match exec_throws reply with
  | None => Returns rc
  | Some e => Throws e
  end.

(** The claim as the specification words it, for one streaming [exec]
    routed to handle [r]: the row messages, then the end-of-results
    message, then the response, whether the engine returns or throws. *)
Definition spec_stream_holds (env : Env) (ev : Request) (w : World)
    (t : string) (r : dbref) : Prop :=
  ∃ resp,
    posted_since w (onmessage env ev w) =
      imap (row_message t) (map produced_row (produced (db_exec env r))) ++
      [end_of_rows t] ++ [Response resp].

(** ** Function-free options *)

Definition props_have_function (o : obj) : bool :=
  existsb (fun kv => has_function kv.2) o.

(** The properties of [o] other than [callback] hold no function. *)
Definition rest_function_free (o : obj) : Prop :=
  props_have_function (set_prop o "callback" VUndefined) = false.

(** The same for a value: an object or an array whose elements and
    properties, [callback] apart, hold no function. *)
Definition echo_function_free (rc : value) : Prop :=
  match rc with
  | VObject o => rest_function_free o
  | VArray l o => existsb has_function l = false ∧ rest_function_free o
  | _ => True
  end.

(** The engine hands out no function: neither in a row nor in a column
    name. *)
Definition engine_function_free (reply : ExecReply) : Prop :=
  Forall (fun e => has_function (produced_row e) = false) (produced reply) ∧
  Forall (fun c => has_function c = false) (column_names reply).

(** ** Sample collaborators, requests and worlds, for the concrete instances *)

Definition sample_env (reply : ExecReply) : Env :=
  mkEnv "" [] (fun _ => OpenReturns 7 "" "") (fun _ => reply)
    (VNum 0) (VNum 0) (fun _ => VUndefined).

Definition quiet_exec : ExecReply := mkExecReply [] [] None.

(** An engine that produces one row and then throws. *)
Definition failing_exec : ExecReply :=
  mkExecReply [mkRowEvent (VNum 10) []] []
    (Some (mkError "SQLite3Error" "no such table: t")).

Definition failing_open_env : Env :=
  mkEnv "" [] (fun _ => OpenThrows (mkError "SQLite3Error" "unable to open"))
    (fun _ => quiet_exec) (VNum 0) (VNum 0) (fun _ => VUndefined).

Definition request (t : string) (a : value) (id : option string) : Request :=
  mkRequest t a id (Own (VNum 1)) (Own VUndefined).

(** The world after one successful [open]: handle [0], identified by
    ["db#1@7"], is open and is the default. *)
Definition one_open_World : World :=
  onmessage (sample_env quiet_exec) (request "open" VUndefined None)
    initial_World.

(** An engine with two database files: [scratch.db], opened at pointer
    [8], and [main.db], opened at pointer [7] for every other name. *)
Definition two_files_env : Env :=
  mkEnv "" []
    (fun name => if is_str name "scratch.db"
                 then OpenReturns 8 "scratch.db" "scratch.db"
                 else OpenReturns 7 "main.db" "main.db")
    (fun _ => quiet_exec) (VNum 0) (VNum 0) (fun _ => VUndefined).

(** [main.db] is open as handle [0], the default, identified by
    ["db#1@7"]; [scratch.db] was opened as handle [1], identified by
    ["db#2@8"], and has been closed and unlinked. *)
Definition scratch_closed_World : World :=
  run [(two_files_env,
        request "open" (VObject [("filename", VStr "main.db")]) None);
       (two_files_env,
        request "open" (VObject [("filename", VStr "scratch.db")]) None);
       (two_files_env,
        request "close" (VObject [("unlink", VBool true)]) (Some "db#2@8"))]
    initial_World.

(** * The bootstrap shim: [sqlite3-api-cleanup.js] *)

(** [Object.prototype.hasOwnProperty.call(v, k)] for the property names
    [Module], [exports] and [memory], none of which is a built-in own
    property of a primitive or of an array. *)
Definition hasOwnProperty (v : value) (k : string) : bool :=
  match v with
  | VObject o | VArray _ o =>
      match lookup_prop o k with Some _ => true | None => false end
  | _ => false
  end.

(** [configDefaults], read off the Emscripten module object. *)
Definition configDefaults (EmModule : value) : obj :=
  [("Module", EmModule);
   ("exports", get EmModule "asm");
   ("memory", get EmModule "wasmMemory")].

(** The [config] object that the replacement of [sqlite3ApiBootstrap]
    hands to the original one: for each key of [configDefaults], the
    client's own value if it has one, else the default. *)
Definition sqlite3ApiBootstrap_config (EmModule apiConfig : value) : obj :=
  let apiConfig := js_or apiConfig (VObject []) in
  fold_left
    (fun config kd =>
       set_prop config kd.1
         (if hasOwnProperty apiConfig kd.1 then get apiConfig kd.1 else kd.2))
    (configDefaults EmModule) [].

(** * Further notions used in the statements *)

(** The method names of [wMsgHandler]. *)
Definition command_names : list string :=
  ["open"; "close"; "exec"; "config-get"; "export"; "toss"].

(** The buffers handed to the channel so far, in order, followed by the
    buffers still waiting in [wState.xfer]. *)
Definition sent_and_pending (w : World) : list blob :=
  concat (map posted_transfer (outbox w)) ++ xfer (wstate w).

(** The buffers handed to the channel so far, in order. *)
Definition transferred (w : World) : list blob :=
  concat (map posted_transfer (outbox w)).

(** [rc.callback || Array.isArray(rc.resultRows)]: whether [exec] sets
    [db._blobXfer] for these options. *)
Definition wants_blobXfer (rc : value) : bool :=
  truthy (get rc "callback") || isArray (get rc "resultRows").

(** The registry and the engine agree: the sequence number counts the
    handles ever opened, every handle ever opened has an identifier, and
    the open handles are exactly the entries of [dbs]. *)
Definition registry_consistent (w : World) : Prop :=
  idSeq (wstate w) = N.of_nat (length (heap w)) ∧
  (∀ r, r < length (heap w) → is_Some (idMap (wstate w) !! r)) ∧
  (∀ id r, dbs (wstate w) !! id = Some r →
     id = id_of r w ∧ is_Some (pointer_of r w)) ∧
  (∀ r, is_Some (pointer_of r w) → dbs (wstate w) !! id_of r w = Some r) ∧
  (∀ d, defaultDb (wstate w) = Some d → is_Some (pointer_of d w)).


(** The part of [registry_consistent] that [Inv] does not give. *)
Definition counted (w : World) : Prop :=
  idSeq (wstate w) = N.of_nat (length (heap w)) ∧
  (∀ r, r < length (heap w) → is_Some (idMap (wstate w) !! r)) ∧
  (∀ r, is_Some (pointer_of r w) → dbs (wstate w) !! id_of r w = Some r).

(** * Properties *)

(** ** A session *)

(** The session of the specification: [open] of an in-memory database,
    [exec] of a statement under the returned handle id, [close] of that
    handle. *)
Example session_open_exec_close :
  map posted_msg
    (outbox
       (run [(sample_env quiet_exec,
              request "open" (VObject [("filename", VStr ":memory:")]) None);
             (sample_env quiet_exec,
              request "exec" (VStr "CREATE TABLE t(a)") (Some "db#1@7"));
             (sample_env quiet_exec,
              request "close" VUndefined (Some "db#1@7"))]
          initial_World)) =
  [Response
     (mkEnvelope "open" (VStr "db#1@7") (VNum 1) (VNum 0) (VNum 0) VUndefined
        (Success (VObject [("filename", VStr "");
                           ("persistent", VBool false);
                           ("dbId", VStr "db#1@7")])));
   Response
     (mkEnvelope "exec" (VStr "db#1@7") (VNum 1) (VNum 0) (VNum 0) VUndefined
        (Success (VObject [("sql", VStr "CREATE TABLE t(a)");
                           ("rowMode", VStr "array")])));
   Response
     (mkEnvelope "close" (VStr "db#1@7") (VNum 1) (VNum 0) (VNum 0) VUndefined
        (Success (VObject [("filename", VStr "");
                           ("dbId", VStr "db#1@7")])))].
Proof. vm_compute. reflexivity. Qed.

(** ** Objects *)

Lemma lookup_set_prop_eq o k v : lookup_prop (set_prop o k v) k = Some v.
Proof.
  induction o as [|[k' v'] o IH]; simpl.
  - by rewrite String.eqb_refl.
  - destruct (String.eqb k k') eqn:E; simpl; rewrite ?String.eqb_refl, ?E; done.
Qed.

Lemma lookup_set_prop_ne o k k' v :
  k ≠ k' → lookup_prop (set_prop o k v) k' = lookup_prop o k'.
Proof.
  intros Hne. induction o as [|[k0 v0] o IH]; simpl.
  - destruct (String.eqb k' k) eqn:E; [|done].
    apply String.eqb_eq in E. congruence.
  - destruct (String.eqb k k0) eqn:E; simpl.
    + apply String.eqb_eq in E. subst k0.
      destruct (String.eqb k' k) eqn:E'; [|done].
      apply String.eqb_eq in E'. congruence.
    + by rewrite IH.
Qed.

Lemma get_put_eq rc rc' k v : put rc k v = Some rc' → get rc' k = v.
Proof.
  destruct rc; simpl; intros [= <-]; simpl; by rewrite lookup_set_prop_eq.
Qed.

Lemma get_put_ne rc rc' k k' v :
  k ≠ k' → put rc k v = Some rc' → get rc' k' = get rc k'.
Proof.
  intros Hne. destruct rc; simpl; intros [= <-]; simpl;
    by rewrite lookup_set_prop_ne.
Qed.

Lemma put_is_Some rc k v :
  typeof_object rc = true → truthy rc = true → is_Some (put rc k v).
Proof. destruct rc; simpl; try done; eauto. Qed.

(** ** Identifiers *)

Lemma string_of_uint_all_digits d : all_digits (NilEmpty.string_of_uint d) = true.
Proof. induction d; simpl; auto. Qed.

Lemma string_of_uint_inj d d' :
  NilEmpty.string_of_uint d = NilEmpty.string_of_uint d' → d = d'.
Proof.
  intros H. apply (f_equal NilEmpty.uint_of_string) in H.
  rewrite !NilEmpty.usu in H. congruence.
Qed.

(** A text without the separator is determined by what precedes the
    first separator. *)
Lemma append_at_inj a a' s s' :
  all_digits a = true → all_digits a' = true →
  a +:+ String "@" s = a' +:+ String "@" s' → a = a'.
Proof.
  revert a'. induction a as [|c a IH]; intros [|c' a'] Ha Ha'; simpl in *.
  - done.
  - intros [= <- _]. simpl in Ha'. done.
  - intros [= -> _]. simpl in Ha. done.
  - intros [= -> Hrest]. f_equal.
    apply andb_prop in Ha as [_ Ha]. apply andb_prop in Ha' as [_ Ha'].
    by apply IH.
Qed.

Lemma make_id_seq_inj n p n' p' : make_id n p = make_id n' p' → n = n'.
Proof.
  unfold make_id. simpl. intros [= H].
  apply append_at_inj in H; try apply string_of_uint_all_digits.
  by apply DecimalN.Unsigned.to_uint_inj, string_of_uint_inj.
Qed.

Lemma make_id_truthy n p : truthy (VStr (make_id n p)) = true.
Proof. done. Qed.

Lemma make_id_not_undefined n p : make_id n p ≠ "undefined".
Proof. done. Qed.

(** ** The registry invariant *)

Lemma same_registry_refl w : same_registry w w.
Proof. by repeat split. Qed.

Lemma same_registry_trans w1 w2 w3 :
  same_registry w1 w2 → same_registry w2 w3 → same_registry w1 w3.
Proof.
  intros (?&?&?&?&?) (?&?&?&?&?). repeat split; congruence.
Qed.

Lemma Inv_same_registry w w' : same_registry w w' → Inv w → Inv w'.
Proof.
  intros (Hd&Hs&Hi&Hm&Hh) [H1 H2 H3]. split.
  - intros r id. rewrite Hi, Hs, Hh. apply H1.
  - intros id r. rewrite Hm, Hi. unfold pointer_of. rewrite Hh. apply H2.
  - intros d. rewrite Hd, Hm. apply H3.
Qed.

Lemma Inv_initial : Inv initial_World.
Proof. split; simpl; intros; simplify_map_eq. Qed.

Lemma wState_post_same_registry msg b w : same_registry w (wState_post msg b w).
Proof.
  unfold wState_post. destruct (_ && _); by repeat split.
Qed.

(** ** Equations of the registry operations *)

Lemma getDbId_known w r id :
  Inv w → idMap (wstate w) !! r = Some id → getDbId r w = (Returns id, w).
Proof.
  intros HI Hid. unfold getDbId, bind, gets. rewrite Hid.
  destruct (inv_ids w HI r id Hid) as (_ & n & p & -> & _). done.
Qed.

Lemma getDbId_fresh w r :
  idMap (wstate w) !! r = None → getDbId r w = mint_id r w.
Proof. intros Hid. unfold getDbId, bind, gets. by rewrite Hid. Qed.

Lemma getMsgDb_false ev w :
  getMsgDb ev false w = (Returns (routed (ev_dbId ev) w), w).
Proof.
  unfold getMsgDb, routed, wState_getDb, bind, gets, ret.
  by destruct (dbs (wstate w) !! dbs_key (ev_dbId ev)).
Qed.

Lemma Inv_routed_open w id r :
  Inv w → routed id w = Some r → is_Some (pointer_of r w).
Proof.
  intros HI. unfold routed.
  destruct (dbs (wstate w) !! dbs_key id) as [r'|] eqn:E.
  - intros [= <-]. by apply (inv_dbs w HI _ _ E).
  - intros Hd. destruct (inv_default w HI _ Hd) as [id' Hid'].
    by apply (inv_dbs w HI _ _ Hid').
Qed.

Lemma getMsgDb_true ev w :
  Inv w →
  getMsgDb ev true w =
    match routed (ev_dbId ev) w with
    | Some r => (Returns (Some r), w)
    | None => (Throws (toss [VStr "DB is not opened."]), w)
    end.
Proof.
  intros HI. pose proof (Inv_routed_open w (ev_dbId ev)) as Hopen.
  unfold getMsgDb, routed, wState_getDb, affirmDbOpen, bind, gets, ret, throw in *.
  destruct (dbs (wstate w) !! dbs_key (ev_dbId ev)) as [r|] eqn:E.
  - destruct (Hopen r HI eq_refl) as [p Hp]. by rewrite Hp.
  - destruct (defaultDb (wstate w)) as [d|] eqn:Ed; [|done].
    destruct (Hopen d HI eq_refl) as [p Hp]. by rewrite Hp.
Qed.

Lemma getMsgDb_same_registry ev b w r w' :
  getMsgDb ev b w = (r, w') → w' = w.
Proof.
  unfold getMsgDb, wState_getDb, affirmDbOpen, bind, gets, ret, throw.
  destruct (dbs (wstate w) !! dbs_key (ev_dbId ev)); destruct b; simpl;
    repeat case_match; congruence.
Qed.

Lemma getDefaultDbId_Inv w :
  Inv w →
  getDefaultDbId w =
    (Returns (match defaultDb (wstate w) with
              | Some d => VStr (default "" (idMap (wstate w) !! d))
              | None => VUndefined
              end), w).
Proof.
  intros HI. unfold getDefaultDbId, bind, gets, ret.
  destruct (defaultDb (wstate w)) as [d|] eqn:Ed; [|done].
  destruct (inv_default w HI _ Ed) as [id Hid].
  destruct (inv_dbs w HI _ _ Hid) as [Hm _].
  rewrite (getDbId_known w d id HI Hm). by rewrite Hm.
Qed.

(** ** [open] *)

Lemma Inv_fresh_ref w : Inv w → idMap (wstate w) !! length (heap w) = None.
Proof.
  intros HI. destruct (idMap (wstate w) !! length (heap w)) eqn:E; [|done].
  apply (inv_ids w HI) in E as [? _]. lia.
Qed.

Lemma wState_open_returns env opt p fn fN w :
  Inv w →
  new_DB env (get opt "filename") = OpenReturns p fn fN →
  wState_open env opt w = (Returns (length (heap w)), opened_World p fn fN w).
Proof.
  intros HI Hnew. unfold wState_open. rewrite Hnew.
  unfold bind at 1, gets at 1. unfold bind at 1, modify at 1.
  unfold bind at 1.
  rewrite getDbId_fresh by (simpl; by apply Inv_fresh_ref).
  unfold mint_id, bind, modify, ret, with_wstate, with_heap, opened_World,
    opened_id, pointer_of; simpl.
  rewrite lookup_app_r, Nat.sub_diag by lia. simpl.
  destruct (defaultDb (wstate w)) eqn:Ed;
    unfold set_defaultDb, set_dbs, set_idMap, set_idSeq; simpl;
    by rewrite ?Ed.
Qed.

Lemma wState_open_throws env opt e w :
  new_DB env (get opt "filename") = OpenThrows e →
  wState_open env opt w = (Throws e, w).
Proof. intros Hnew. unfold wState_open. by rewrite Hnew. Qed.

Lemma Inv_opened_World p fn fN w : Inv w → Inv (opened_World p fn fN w).
Proof.
  intros HI. pose proof (Inv_fresh_ref w HI) as Hfresh.
  destruct HI as [H1 H2 H3]. split; simpl.
  - intros r id. rewrite length_app; simpl.
    destruct (decide (r = length (heap w))) as [->|Hne].
    + rewrite lookup_insert_eq. intros [= <-]. split; [lia|].
      eexists _, _. split; [done|]. lia.
    + rewrite lookup_insert_ne by done. intros Hr.
      destruct (H1 _ _ Hr) as (? & n & q & -> & ?).
      split; [lia|]. eexists _, _. split; [done|]. lia.
  - intros id r.
    destruct (decide (id = opened_id p w)) as [->|Hne].
    + rewrite lookup_insert_eq. intros [= <-].
      rewrite lookup_insert_eq. split; [done|].
      unfold pointer_of; simpl.
      rewrite lookup_app_r, Nat.sub_diag by lia. simpl. eauto.
    + rewrite lookup_insert_ne by done. intros Hr.
      destruct (H2 _ _ Hr) as [Hm Hp].
      assert (r < length (heap w)) by (by apply (H1 _ _ Hm)).
      rewrite lookup_insert_ne by lia. split; [done|].
      unfold pointer_of in *; simpl. by rewrite lookup_app_l.
  - intros d Hd.
    destruct (defaultDb (wstate w)) as [d0|] eqn:Ed.
    + injection Hd as <-. destruct (H3 _ eq_refl) as [id Hid].
      destruct (decide (id = opened_id p w)) as [->|Hne].
      * destruct (H2 _ _ Hid) as [Hm _].
        destruct (H1 _ _ Hm) as (_ & n & q & Hn & Hle).
        apply make_id_seq_inj in Hn. lia.
      * exists id. by rewrite lookup_insert_ne.
    + injection Hd as <-. exists (opened_id p w). by rewrite lookup_insert_eq.
Qed.

Lemma wMsgHandler_open_returns env ev p fn fN w :
  Inv w →
  truthy (get (js_or (ev_args ev) (VObject [])) "simulateError") = false →
  new_DB env (open_filename (persistent_dir env)
                (js_or (ev_args ev) (VObject []))) = OpenReturns p fn fN →
  wMsgHandler_open env ev w =
    (Returns (VObject [("filename", VStr fn);
                       ("persistent",
                        VBool (truthy (VStr (persistent_dir env))
                               && String.prefix (persistent_dir env) fn));
                       ("dbId", VStr (opened_id p w))]),
     opened_World p fn fN w).
Proof.
  intros HI Hsim Hnew. unfold wMsgHandler_open. rewrite Hsim.
  unfold bind at 1.
  rewrite (wState_open_returns env _ p fn fN w HI) by done.
  unfold bind at 1, gets at 1.
  unfold bind at 1.
  rewrite (getDbId_known _ _ (opened_id p w)).
  - unfold ret, db_filename_of. simpl.
    by rewrite lookup_app_r, Nat.sub_diag by lia.
  - by apply Inv_opened_World.
  - simpl. by rewrite lookup_insert_eq.
Qed.

Lemma wMsgHandler_open_throws env ev w r w' :
  wMsgHandler_open env ev w = (r, w') →
  (∃ e, r = Throws e ∧ w' = w) ∨
  (∃ p fn fN,
     truthy (get (js_or (ev_args ev) (VObject [])) "simulateError") = false ∧
     new_DB env (open_filename (persistent_dir env)
                   (js_or (ev_args ev) (VObject []))) = OpenReturns p fn fN).
Proof.
  unfold wMsgHandler_open.
  destruct (truthy (get _ "simulateError")) eqn:Hsim.
  { intros [= <- <-]. left. eauto. }
  destruct (new_DB env (open_filename (persistent_dir env)
                          (js_or (ev_args ev) (VObject [])))) as [e|p fn fN] eqn:Hnew.
  - unfold bind at 1. rewrite (wState_open_throws _ _ e) by done.
    intros [= <- <-]. left. eauto.
  - intros _. right. eauto 10.
Qed.

(** ** [close] *)

Lemma Inv_routed_filed w id r :
  Inv w → routed id w = Some r →
  idMap (wstate w) !! r = Some (id_of r w) ∧
  dbs (wstate w) !! id_of r w = Some r.
Proof.
  intros HI. unfold routed, id_of.
  destruct (dbs (wstate w) !! dbs_key id) as [r'|] eqn:E.
  - intros [= <-]. destruct (inv_dbs w HI _ _ E) as [Hm _]. by rewrite Hm.
  - intros Hd. destruct (inv_default w HI _ Hd) as [id' Hid'].
    destruct (inv_dbs w HI _ _ Hid') as [Hm _]. by rewrite Hm.
Qed.

Lemma wState_close_registered r alsoUnlink w :
  Inv w → idMap (wstate w) !! r = Some (id_of r w) →
  wState_close (Some r) alsoUnlink w = (Returns tt, closed_World r alsoUnlink w).
Proof.
  intros HI Hm. unfold wState_close. unfold bind at 1.
  rewrite (getDbId_known w r _ HI Hm).
  unfold bind, modify, gets, ret, closed_World, db_close, with_wstate,
    with_heap, with_unlinked, db_fileName_of; simpl.
  destruct (heap w !! r) as [o|] eqn:Eo; simpl;
    destruct (decide (defaultDb (wstate w) = Some r)); simpl;
    destruct alsoUnlink; simpl; try done;
    destruct (negb _); done.
Qed.

Lemma wMsgHandler_close_eq ev w :
  Inv w →
  wMsgHandler_close ev w =
    match routed (ev_dbId ev) w with
    | None =>
        (Returns (VObject [("filename", VUndefined); ("dbId", VUndefined)]), w)
    | Some r =>
        (Returns (VObject [("filename", VStr (db_filename_of r w));
                           ("dbId", VStr (id_of r w))]),
         closed_World r (unlink_requested ev) w)
    end.
Proof.
  intros HI. unfold wMsgHandler_close. unfold bind at 1.
  rewrite getMsgDb_false.
  destruct (routed (ev_dbId ev) w) as [r|] eqn:Er; [|done].
  destruct (Inv_routed_filed w _ r HI Er) as [Hm _].
  unfold bind at 1, gets at 1. unfold bind at 1.
  rewrite (getDbId_known w r _ HI Hm).
  unfold bind at 1. fold (unlink_requested ev).
  by rewrite (wState_close_registered r _ w HI Hm).
Qed.

Lemma Inv_closed_World r b w id :
  Inv w → routed id w = Some r → Inv (closed_World r b w).
Proof.
  intros HI Hr. destruct (Inv_routed_filed w _ r HI Hr) as [Hm Hfiled].
  destruct HI as [H1 H2 H3]. split; simpl.
  - intros r' id' Hr'. destruct (H1 _ _ Hr') as [Hlt Hid].
    split; [|done]. destruct (heap w !! r); by rewrite ?length_insert.
  - intros id' r'.
    destruct (decide (id' = id_of r w)) as [->|Hne].
    { by rewrite lookup_delete_eq. }
    rewrite lookup_delete_ne by done. intros Hr'.
    destruct (H2 _ _ Hr') as [Hm' Hp]. split; [done|].
    assert (r' ≠ r) by (intros ->; congruence).
    unfold pointer_of in *; simpl.
    destruct (heap w !! r); [|done]. by rewrite list_lookup_insert_ne.
  - intros d Hd.
    destruct (decide (defaultDb (wstate w) = Some r)) as [|Hne]; [done|].
    destruct (H3 _ Hd) as [id' Hid']. exists id'.
    rewrite lookup_delete_ne; [done|]. intros <-. congruence.
Qed.

(** ** [exec] *)

Lemma messages_post msg b w :
  messages (wState_post msg b w) = messages w ++ [msg].
Proof.
  unfold wState_post, messages. destruct (_ && _); simpl;
    by rewrite map_app.
Qed.

Lemma unlinked_post msg b w : unlinked (wState_post msg b w) = unlinked w.
Proof. unfold wState_post. by destruct (_ && _). Qed.

Lemma get_push_into_ne rc k k' x :
  k ≠ k' → get (push_into rc k x) k' = get rc k'.
Proof.
  intros Hne. unfold push_into. destruct (get rc k); try done.
  destruct (put rc k _) as [rc'|] eqn:E; [|done].
  simpl. by apply (get_put_ne _ _ _ _ _ Hne E).
Qed.

Lemma get_columnNames_pushed_ne names rc k :
  "columnNames" ≠ k →
  get (fold_left (fun c x => push_into c "columnNames" x) names rc) k = get rc k.
Proof.
  intros Hne. revert rc. induction names as [|x names IH]; intros rc; simpl.
  - done.
  - rewrite IH. by apply get_push_into_ne.
Qed.

Lemma engine_rows_same_registry b rows rc n w :
  same_registry w (engine_rows b rows rc n w).2 ∧
  unlinked (engine_rows b rows rc n w).2 = unlinked w.
Proof.
  revert rc n w. induction rows as [|r rows IH]; intros rc n w; simpl.
  - split; [apply same_registry_refl|done].
  - set (w1 := if b then _ else w).
    assert (same_registry w w1 ∧ unlinked w1 = unlinked w) as [H1 U1].
    { subst w1. destruct b; split; try done; by repeat split. }
    destruct (get (push_into rc "resultRows" (produced_row r)) "callback")
      as [| | | | |[t]| |]; simpl;
      try (destruct (IH (push_into rc "resultRows" (produced_row r)) n w1)
             as [H2 U2]; split;
           [by eapply same_registry_trans|congruence]).
    unfold call_RowPoster.
    match goal with |- context [engine_rows b rows ?c ?m ?x] =>
      destruct (IH c m x) as [H2 U2] end.
    split.
    + eapply same_registry_trans; [exact H1|].
      eapply same_registry_trans; [apply wState_post_same_registry|exact H2].
    + rewrite U2, unlinked_post. done.
Qed.

Lemma engine_rows_streaming b rows rc n w t :
  get rc "callback" = VFunction (RowPoster t) →
  get (engine_rows b rows rc n w).1.1 "callback" = VFunction (RowPoster t) ∧
  messages (engine_rows b rows rc n w).2 =
    messages w ++ row_messages_from t n (map produced_row rows).
Proof.
  revert rc n w. induction rows as [|r rows IH]; intros rc n w Hcb; simpl.
  - by rewrite app_nil_r.
  - rewrite get_push_into_ne by done. rewrite Hcb.
    unfold call_RowPoster.
    match goal with |- context [engine_rows b rows ?c ?m ?x] =>
      destruct (IH c m x) as [H1 H2] end.
    { by rewrite get_push_into_ne. }
    split; [done|]. rewrite H2, messages_post, <- app_assoc.
    by destruct b.
Qed.

Lemma engine_exec_same_registry reply b rc w :
  same_registry w (engine_exec reply b rc w).2 ∧
  unlinked (engine_exec reply b rc w).2 = unlinked w.
Proof.
  unfold engine_exec.
  match goal with |- context [engine_rows b ?rows ?c ?m ?x] =>
    pose proof (engine_rows_same_registry b rows c m x) as H;
    destruct (engine_rows b rows c m x) as [[rc1 n1] w1] end.
  by destruct (exec_throws reply).
Qed.

Lemma exec_body_same_registry env ev rc w :
  same_registry w (exec_body env ev rc w).2 ∧
  unlinked (exec_body env ev rc w).2 = unlinked w.
Proof.
  unfold exec_body.
  destruct (getMsgDb ev true w) as [[[db|]|e] w1] eqn:Eg;
    apply getMsgDb_same_registry in Eg as ->; simpl;
    try (split; [apply same_registry_refl|done]).
  match goal with |- context [engine_exec ?reply ?b ?c ?x] =>
    pose proof (engine_exec_same_registry reply b c x) as [H U];
    destruct (engine_exec reply b c x) as [[r2 rc2] w2] end.
  simpl in H, U.
  destruct r2 as [[]|e]; simpl.
  - destruct (instanceof_Function (get rc2 "callback")); simpl; [|done].
    split.
    + eapply same_registry_trans; [exact H|apply wState_post_same_registry].
    + by rewrite ?unlinked_post.
  - done.
Qed.

Lemma same_envelope_refl ev : same_envelope ev ev.
Proof. by repeat split. Qed.

Lemma with_args_same_envelope b rc ev : same_envelope ev (with_args b rc ev).
Proof. unfold with_args. destruct b; by repeat split. Qed.

Lemma wMsgHandler_exec_frame env ev w :
  same_registry w (wMsgHandler_exec env ev w).2 ∧
  unlinked (wMsgHandler_exec env ev w).2 = unlinked w ∧
  same_envelope ev (wMsgHandler_exec env ev w).1.2.
Proof.
  unfold wMsgHandler_exec.
  set (rc := if typeof_string (ev_args ev) then _ else _).
  set (aliased := negb _ && _).
  assert (∀ c, let '(r, rc'', w') := exec_body env ev c w in
               same_registry w (r, with_args aliased rc'' ev, w').2 ∧
               unlinked (r, with_args aliased rc'' ev, w').2 = unlinked w ∧
               same_envelope ev (r, with_args aliased rc'' ev, w').1.2) as Hbody.
  { intros c. pose proof (exec_body_same_registry env ev c w) as [H U].
    destruct (exec_body env ev c w) as [[r rc''] w']. simpl in *.
    split; [done|]. split; [done|]. apply with_args_same_envelope. }
  assert (same_registry w w ∧ unlinked w = unlinked w ∧ same_envelope ev ev)
    as Hrefl.
  { split; [apply same_registry_refl|]. split; [done|].
    apply same_envelope_refl. }
  destruct (get rc "rowMode") eqn:Emode;
    try (destruct (is_str _ "stmt"); [exact Hrefl|];
         match goal with |- context [exec_body env ev ?c w] =>
           specialize (Hbody c); by destruct (exec_body env ev c w) as [[??]?]
         end).
  destruct (put rc "rowMode" (VStr "array")) as [rc'|]; [|exact Hrefl].
  specialize (Hbody rc'). by destruct (exec_body env ev rc' w) as [[??]?].
Qed.

(** ** The dispatcher preserves the invariant *)

Lemma dispatch_Inv env ev w :
  Inv w →
  Inv (dispatch env ev w).2 ∧ same_envelope ev (dispatch env ev w).1.2.
Proof.
  intros HI. unfold dispatch.
  destruct (String.eqb (ev_type ev) "open").
  { split; [|by destruct (wMsgHandler_open env ev w); apply same_envelope_refl].
    destruct (wMsgHandler_open env ev w) as [r w'] eqn:E. simpl.
    destruct (wMsgHandler_open_throws _ _ _ _ _ E)
      as [(e & -> & ->)|(p & fn & fN & Hsim & Hnew)]; [done|].
    rewrite (wMsgHandler_open_returns env ev p fn fN w HI Hsim Hnew) in E.
    injection E as <- <-. by apply Inv_opened_World. }
  destruct (String.eqb (ev_type ev) "close").
  { rewrite wMsgHandler_close_eq by done.
    destruct (routed (ev_dbId ev) w) as [r|] eqn:Er; simpl;
      (split; [|apply same_envelope_refl]); [|done].
    by eapply Inv_closed_World. }
  destruct (String.eqb (ev_type ev) "exec").
  { destruct (wMsgHandler_exec_frame env ev w) as (H & _ & He).
    split; [|done]. by eapply Inv_same_registry. }
  repeat (match goal with |- context [if ?b then _ else _] => destruct b end);
    simpl; (split; [done|apply same_envelope_refl]).
Qed.

Lemma onmessage_Inv env ev w : Inv w → Inv (onmessage env ev w).
Proof.
  intros HI. unfold onmessage.
  destruct (dispatch_Inv env ev w HI) as [HI1 _].
  destruct (dispatch env ev w) as [[r ev'] w1]. simpl in HI1.
  destruct r as [v|err].
  all: match goal with |- context [if ?b then _ else _] => destruct b end;
    [match goal with |- context [if ?b then _ else _] => destruct b end|];
    rewrite ?(getDefaultDbId_Inv w1 HI1);
    (eapply Inv_same_registry; [apply wState_post_same_registry|done]).
Qed.

Lemma reachable_Inv w : reachable w → Inv w.
Proof.
  induction 1; [apply Inv_initial|by apply onmessage_Inv].
Qed.

Lemma reachable_run queue w : reachable w → reachable (run queue w).
Proof.
  revert w. induction queue as [|[env ev] queue IH]; intros w Hw; simpl.
  - done.
  - apply IH. by constructor.
Qed.

(** ** The response of the dispatcher *)

Lemma getDefaultDbId_default_id w :
  Inv w → getDefaultDbId w = (Returns (default_id w), w).
Proof.
  intros HI. rewrite getDefaultDbId_Inv by done. unfold default_id, id_of.
  by destruct (defaultDb (wstate w)).
Qed.

Lemma onmessage_eq env ev w :
  Inv w →
  onmessage env ev w =
    wState_post
      (Response (response_to env ev (dispatch env ev w).1.1
                   (dispatch env ev w).1.2 (dispatch env ev w).2))
      true (dispatch env ev w).2.
Proof.
  intros HI. unfold onmessage, response_to.
  destruct (dispatch_Inv env ev w HI) as [HI1 _].
  destruct (dispatch env ev w) as [[r ev'] w1]. simpl in *.
  destruct r as [v|err]; simpl;
    destruct (truthy (value_of_dbId (ev_dbId ev))); simpl; try done.
  - destruct (truthy (get v "dbId")); simpl; [done|].
    by rewrite getDefaultDbId_default_id.
  - by rewrite getDefaultDbId_default_id.
Qed.

Lemma last_response_post e b w :
  last_response (wState_post (Response e) b w) = Some e.
Proof.
  unfold last_response, wState_post. destruct (_ && _); simpl;
    by rewrite last_snoc.
Qed.

Lemma posted_since_app w w' l :
  messages w' = messages w ++ l → posted_since w w' = l.
Proof.
  intros H. unfold posted_since. rewrite H.
  replace (length (outbox w)) with (length (messages w))
    by (unfold messages; apply length_map).
  by rewrite drop_app_length.
Qed.

Lemma onmessage_last_response env ev w :
  Inv w →
  last_response (onmessage env ev w) =
    Some (response_to env ev (dispatch env ev w).1.1
            (dispatch env ev w).1.2 (dispatch env ev w).2).
Proof. intros HI. rewrite onmessage_eq by done. apply last_response_post. Qed.

Lemma onmessage_messages env ev w :
  Inv w →
  messages (onmessage env ev w) =
    messages (dispatch env ev w).2 ++
    [Response (response_to env ev (dispatch env ev w).1.1
                 (dispatch env ev w).1.2 (dispatch env ev w).2)].
Proof. intros HI. rewrite onmessage_eq by done. apply messages_post. Qed.

Lemma onmessage_same_registry env ev w :
  Inv w → same_registry (dispatch env ev w).2 (onmessage env ev w).
Proof.
  intros HI. rewrite onmessage_eq by done. apply wState_post_same_registry.
Qed.

Lemma dispatch_same_envelope env ev w :
  same_envelope ev (dispatch env ev w).1.2.
Proof.
  unfold dispatch.
  destruct (String.eqb (ev_type ev) "exec") eqn:E.
  - repeat (match goal with |- context [if ?b then _ else _] =>
              destruct b eqn:? end);
      try (match goal with |- context [?m w] =>
             destruct (m w); apply same_envelope_refl end).
    apply wMsgHandler_exec_frame.
  - repeat (match goal with |- context [if ?b then _ else _] =>
              destruct b eqn:? end);
      try discriminate;
      match goal with |- context [?m w] =>
        destruct (m w); apply same_envelope_refl end.
Qed.

Lemma reachable_one_open_World : reachable one_open_World.
Proof. apply reachable_onmessage, reachable_initial. Qed.

(** * The handle id of the response *)

(** C2. An [open] request that carries a handle id, served in the
    initial world. The handler opens a handle and returns its identifier,
    ["db#1@7"], in its result, but the envelope is posted under the
    handle id of the request: the dispatcher starts from [ev.dbId] and
    consults [result.dbId] only when the request carries none. The
    precedence of the specification, which is also what the source
    documents for the response to [open], does not hold of this
    message. *)
Theorem open_response_under_request_dbId :
  let ev := request "open" VUndefined (Some "mine") in
  (∃ resp,
     last_response (onmessage (sample_env quiet_exec) ev initial_World) =
       Some resp ∧
     type resp = "open" ∧
     result_dbId (result resp) = VStr "db#1@7" ∧
     dbId resp = VStr "mine") ∧
  ¬ spec_precedence_holds (sample_env quiet_exec) ev initial_World.
Proof.
  split.
  - eexists. split; [vm_compute; reflexivity|]. by vm_compute.
  - intros (resp & Hlast & Hid). vm_compute in Hlast.
    injection Hlast as <-. vm_compute in Hid. discriminate.
Qed.

(** * [exec] in the handle-based row mode *)

Lemma dispatch_exec env ev w :
  ev_type ev = "exec" → dispatch env ev w = wMsgHandler_exec env ev w.
Proof. intros H. unfold dispatch. by rewrite H. Qed.

Lemma dispatch_open env ev w :
  ev_type ev = "open" →
  dispatch env ev w =
    ((wMsgHandler_open env ev w).1, ev, (wMsgHandler_open env ev w).2).
Proof.
  intros H. unfold dispatch. rewrite H. simpl.
  by destruct (wMsgHandler_open env ev w).
Qed.

Lemma dispatch_close env ev w :
  ev_type ev = "close" →
  dispatch env ev w =
    ((wMsgHandler_close ev w).1, ev, (wMsgHandler_close ev w).2).
Proof.
  intros H. unfold dispatch. rewrite H. simpl.
  by destruct (wMsgHandler_close ev w).
Qed.

Lemma is_str_eq v s : is_str v s = true → v = VStr s.
Proof.
  destruct v; simpl; try done. intros H. by apply String.eqb_eq in H as ->.
Qed.

(** C7. An [exec] request whose options say [rowMode: 'stmt'] is answered
    by an error response, and by nothing else, whatever the other options,
    the state of the registry and the engine are: the failure is raised
    before any handle is resolved and before the engine is called, and it
    leaves the world as it was, the posted response apart. *)
Theorem exec_stmt_rowMode_fails env ev w :
  reachable w →
  ev_type ev = "exec" →
  get (ev_args ev) "rowMode" = VStr "stmt" →
  ∃ resp failure,
    posted_since w (onmessage env ev w) = [Response resp] ∧
    type resp = "error" ∧
    result resp = Failure failure ∧
    operation failure = "exec" ∧
    errorClass failure = "Error" ∧
    message failure =
      "Invalid rowMode for 'exec': stmt mode does not work in the Worker API." ∧
    input failure = ev ∧
    same_registry w (onmessage env ev w).
Proof.
  intros Hw Htype Hmode. apply reachable_Inv in Hw.
  assert (wMsgHandler_exec env ev w =
          (Throws (toss [VStr "Invalid rowMode for 'exec': stmt mode";
                         VStr "does not work in the Worker API."]), ev, w))
    as Hexec.
  { unfold wMsgHandler_exec.
    assert (typeof_string (ev_args ev) = false) as ->.
    { destruct (ev_args ev); simpl in *; done. }
    assert (js_or (ev_args ev) (VObject []) = ev_args ev) as ->.
    { destruct (ev_args ev); simpl in *; done. }
    by rewrite Hmode. }
  pose proof (onmessage_messages env ev w Hw) as Hmsg.
  pose proof (onmessage_same_registry env ev w Hw) as Hreg.
  rewrite (dispatch_exec env ev w Htype), Hexec in Hmsg, Hreg. simpl in *.
  eexists _, _. split; [by apply posted_since_app|].
  split; [done|]. split; [reflexivity|]. simpl. by rewrite Htype.
Qed.

Lemma exec_stmt_rowMode_fails_witness :
  reachable initial_World ∧
  ∃ resp failure,
    posted_since initial_World
      (onmessage (sample_env quiet_exec)
         (request "exec" (VObject [("sql", VStr "select 1");
                                   ("rowMode", VStr "stmt")]) None)
         initial_World) = [Response resp] ∧
    type resp = "error" ∧
    result resp = Failure failure ∧
    operation failure = "exec" ∧
    errorClass failure = "Error" ∧
    message failure =
      "Invalid rowMode for 'exec': stmt mode does not work in the Worker API." ∧
    input failure =
      request "exec" (VObject [("sql", VStr "select 1");
                               ("rowMode", VStr "stmt")]) None ∧
    same_registry initial_World
      (onmessage (sample_env quiet_exec)
         (request "exec" (VObject [("sql", VStr "select 1");
                                   ("rowMode", VStr "stmt")]) None)
         initial_World).
Proof.
  split; [apply reachable_initial|].
  apply (exec_stmt_rowMode_fails (sample_env quiet_exec)
           (request "exec" (VObject [("sql", VStr "select 1");
                                     ("rowMode", VStr "stmt")]) None)
           initial_World).
  - apply reachable_initial.
  - reflexivity.
  - reflexivity.
Defined.

(** * A failing [open] *)

(** C8. When the engine's open primitive fails, the [open] command
    leaves the registry as it was: the default handle, the sequence
    number, the identifiers, the entries of [dbs] and the objects are
    unchanged, and the only message posted is an error response. *)
Theorem failed_open_leaves_registry env ev w e :
  reachable w →
  ev_type ev = "open" →
  open_reply env ev = OpenThrows e →
  same_registry w (onmessage env ev w) ∧
  ∃ resp,
    posted_since w (onmessage env ev w) = [Response resp] ∧
    type resp = "error".
Proof.
  intros Hw Htype Hopen. apply reachable_Inv in Hw.
  pose proof (onmessage_messages env ev w Hw) as Hmsg.
  pose proof (onmessage_same_registry env ev w Hw) as Hreg.
  rewrite (dispatch_open env ev w Htype) in Hmsg, Hreg. simpl in *.
  destruct (wMsgHandler_open env ev w) as [r w'] eqn:E.
  destruct (wMsgHandler_open_throws _ _ _ _ _ E)
    as [(e' & -> & ->)|(p & fn & fN & _ & Hnew)].
  - simpl in *. split; [done|]. eexists. split; [by apply posted_since_app|done].
  - unfold open_reply in Hopen. congruence.
Qed.

Lemma failed_open_leaves_registry_witness :
  reachable one_open_World ∧
  same_registry one_open_World
    (onmessage failing_open_env (request "open" VUndefined None)
       one_open_World) ∧
  ∃ resp,
    posted_since one_open_World
      (onmessage failing_open_env (request "open" VUndefined None)
         one_open_World) = [Response resp] ∧
    type resp = "error".
Proof.
  split; [apply reachable_one_open_World|].
  apply (failed_open_leaves_registry failing_open_env
           (request "open" VUndefined None) one_open_World
           (mkError "SQLite3Error" "unable to open")).
  - apply reachable_one_open_World.
  - reflexivity.
  - reflexivity.
Defined.

(** * Handle resolution *)

Lemma Inv_undefined_not_filed w :
  Inv w → dbs (wstate w) !! "undefined" = None.
Proof.
  intros HI. destruct (dbs (wstate w) !! "undefined") as [r|] eqn:E; [|done].
  destruct (inv_dbs w HI _ _ E) as [Hm _].
  destruct (inv_ids w HI _ _ Hm) as (_ & n & p & Hid & _).
  by destruct (make_id_not_undefined n p).
Qed.

Lemma routed_resolve id w : Inv w → routed id w = resolve id w.
Proof.
  intros HI. unfold routed, resolve. destruct id as [i|]; simpl; [done|].
  by rewrite Inv_undefined_not_filed.
Qed.

Lemma getMsgDb_resolve ev w :
  Inv w →
  getMsgDb ev true w =
    match resolve (ev_dbId ev) w with
    | Some r => (Returns (Some r), w)
    | None => (Throws (mkError "Error" "DB is not opened."), w)
    end ∧
  getMsgDb ev false w = (Returns (resolve (ev_dbId ev) w), w).
Proof.
  intros HI.
  rewrite getMsgDb_true, getMsgDb_false, routed_resolve by done.
  split; [|done]. by destruct (resolve (ev_dbId ev) w).
Qed.

(** C4. A request that names the identifier of a handle that has been
    closed, served while another handle is the default: [scratch.db] was
    opened as ["db#2@8"] and closed, [main.db] is open and is the
    default. Nothing is filed under ["db#2@8"], yet [getMsgDb] resolves
    the request to the handle of [main.db] and the [exec] is run on it:
    [wState.getDb] is asked not to fail on an unknown identifier, and
    what it does not find is replaced by the default handle, whether the
    request named an identifier or not. Resolution as the specification
    words it fails for this request. *)
Theorem closed_id_resolves_to_default :
  let ev := request "exec" (VStr "select 1") (Some "db#2@8") in
  let w := scratch_closed_World in
  dbs (wstate w) !! "db#2@8" = None ∧
  defaultDb (wstate w) = Some 0 ∧
  db_filename_of 0 w = "main.db" ∧
  getMsgDb ev true w = (Returns (Some 0), w) ∧
  (∃ resp,
     posted_since w (onmessage two_files_env ev w) = [Response resp] ∧
     type resp = "exec" ∧
     dbId resp = VStr "db#2@8") ∧
  ¬ spec_resolution_holds ev w.
Proof.
  split; [by vm_compute|]. split; [by vm_compute|]. split; [by vm_compute|].
  split; [by vm_compute|]. split.
  - eexists. split; [vm_compute; reflexivity|]. by vm_compute.
  - unfold spec_resolution_holds.
    replace (spec_resolve _ scratch_closed_World) with (@None dbref)
      by (vm_compute; reflexivity).
    intros [e He]. vm_compute in He. discriminate.
Qed.

(** * [close] of a handle id that names no open handle *)

(** C3. A [close] request, with [unlink], that names the identifier of a
    handle that has been closed already, served while another handle is
    the default: [scratch.db] was opened as ["db#2@8"], closed and
    unlinked, [main.db] is open and is the default. The repeated [close]
    is not the no-op that the specification and the handler's own
    documentation describe: [getMsgDb] hands the handler the default
    handle, so the response reports [main.db] and ["db#1@7"], and
    [main.db] is closed, unregistered, cleared as the default and
    unlinked. *)
Theorem close_of_closed_id_closes_default :
  let ev := request "close" (VObject [("unlink", VBool true)])
              (Some "db#2@8") in
  let w := scratch_closed_World in
  let w' := onmessage two_files_env ev w in
  dbs (wstate w) !! "db#2@8" = None ∧
  defaultDb (wstate w) = Some 0 ∧
  dbs (wstate w) !! "db#1@7" = Some 0 ∧
  pointer_of 0 w = Some 7%positive ∧
  unlinked w = ["scratch.db"] ∧
  (∃ resp,
     posted_since w w' = [Response resp] ∧
     type resp = "close" ∧
     result resp =
       Success (VObject [("filename", VStr "main.db");
                         ("dbId", VStr "db#1@7")])) ∧
  pointer_of 0 w' = None ∧
  dbs (wstate w') !! "db#1@7" = None ∧
  defaultDb (wstate w') = None ∧
  unlinked w' = ["scratch.db"; "main.db"] ∧
  ¬ close_is_noop two_files_env ev w.
Proof.
  split; [by vm_compute|]. split; [by vm_compute|]. split; [by vm_compute|].
  split; [by vm_compute|]. split; [by vm_compute|]. split.
  { eexists. split; [vm_compute; reflexivity|]. by vm_compute. }
  split; [by vm_compute|]. split; [by vm_compute|]. split; [by vm_compute|].
  split; [by vm_compute|].
  intros (resp & Hposted & _ & Hresult & _).
  vm_compute in Hposted. injection Hposted as <-.
  vm_compute in Hresult. discriminate.
Qed.

(** ** What a command posts before its response *)

Lemma rows_posted_refl w w' : messages w' = messages w → rows_posted w w'.
Proof. intros H. exists []. by rewrite app_nil_r. Qed.

Lemma rows_posted_trans w1 w2 w3 :
  rows_posted w1 w2 → rows_posted w2 w3 → rows_posted w1 w3.
Proof.
  intros (l1 & H1 & F1) (l2 & H2 & F2). exists (l1 ++ l2).
  rewrite H2, H1, <- app_assoc. split; [done|]. by apply Forall_app.
Qed.

Lemma rows_posted_post r b w : rows_posted w (wState_post (StreamRow r) b w).
Proof.
  exists [StreamRow r]. rewrite messages_post. split; [done|].
  by repeat constructor.
Qed.

Lemma engine_rows_rows_posted b rows rc n w :
  rows_posted w (engine_rows b rows rc n w).2.
Proof.
  revert rc n w. induction rows as [|r rows IH]; intros rc n w; simpl.
  - by apply rows_posted_refl.
  - set (w1 := if b then _ else w).
    assert (rows_posted w w1) as H1.
    { apply rows_posted_refl. subst w1. by destruct b. }
    destruct (get (push_into rc "resultRows" (produced_row r)) "callback")
      as [| | | | |[t]| |]; simpl;
      try (eapply rows_posted_trans; [exact H1|apply IH]).
    unfold call_RowPoster.
    eapply rows_posted_trans; [exact H1|].
    eapply rows_posted_trans; [apply rows_posted_post|apply IH].
Qed.

Lemma exec_body_rows_posted env ev rc w :
  rows_posted w (exec_body env ev rc w).2.
Proof.
  unfold exec_body.
  destruct (getMsgDb ev true w) as [[[db|]|e] w1] eqn:Eg;
    apply getMsgDb_same_registry in Eg as ->; simpl;
    try by apply rows_posted_refl.
  unfold engine_exec.
  match goal with |- context [engine_rows ?b ?rows ?c ?m ?x] =>
    pose proof (engine_rows_rows_posted b rows c m x) as H;
    destruct (engine_rows b rows c m x) as [[rc1 n1] w1] end.
  simpl in H.
  destruct (exec_throws _); simpl; [done|].
  destruct (instanceof_Function (get rc1 "callback")); simpl; [|done].
  eapply rows_posted_trans; [exact H|apply rows_posted_post].
Qed.

Lemma wMsgHandler_exec_rows_posted env ev w :
  rows_posted w (wMsgHandler_exec env ev w).2.
Proof.
  unfold wMsgHandler_exec.
  set (rc := if typeof_string (ev_args ev) then _ else _).
  set (aliased := negb _ && _).
  destruct (get rc "rowMode") eqn:Emode;
    try (destruct (is_str _ "stmt"); [by apply rows_posted_refl|];
         match goal with |- context [exec_body env ev ?c w] =>
           pose proof (exec_body_rows_posted env ev c w);
           by destruct (exec_body env ev c w) as [[??]?]
         end).
  destruct (put rc "rowMode" (VStr "array")) as [rc'|];
    [|by apply rows_posted_refl].
  pose proof (exec_body_rows_posted env ev rc' w).
  by destruct (exec_body env ev rc' w) as [[??]?].
Qed.

(** ** The three shapes of a served command *)

Lemma dispatch_served env ev w : Inv w → served env ev w.
Proof.
  intros HI.
  destruct (String.eqb (ev_type ev) "open") eqn:Eopen.
  { apply String.eqb_eq in Eopen.
    destruct (wMsgHandler_open env ev w) as [r w'] eqn:E.
    destruct (wMsgHandler_open_throws _ _ _ _ _ E)
      as [(e & -> & ->)|(p & fn & fN & Hsim & Hnew)].
    - apply served_other; rewrite (dispatch_open env ev w Eopen), E; simpl.
      + apply same_registry_refl.
      + by apply rows_posted_refl.
      + by rewrite Eopen.
    - apply (served_open env ev w p fn fN Eopen).
      rewrite (dispatch_open env ev w Eopen).
      by rewrite (wMsgHandler_open_returns env ev p fn fN w HI Hsim Hnew). }
  assert (ev_type ev ≠ "open") as Hnopen.
  { intros H. rewrite H in Eopen. discriminate. }
  destruct (String.eqb (ev_type ev) "close") eqn:Eclose.
  { apply String.eqb_eq in Eclose.
    pose proof (dispatch_close env ev w Eclose) as Hd.
    rewrite (wMsgHandler_close_eq ev w HI), routed_resolve in Hd by done.
    destruct (resolve (ev_dbId ev) w) as [r|] eqn:Er; simpl in Hd.
    - by apply (served_close env ev w r).
    - apply served_other; rewrite Hd; simpl.
      + apply same_registry_refl.
      + by apply rows_posted_refl.
      + done. }
  assert (ev_type ev ≠ "close") as Hnclose.
  { intros H. rewrite H in Eclose. discriminate. }
  apply served_other.
  - unfold dispatch. rewrite Eopen, Eclose.
    destruct (String.eqb (ev_type ev) "exec"); [apply wMsgHandler_exec_frame|].
    repeat (match goal with |- context [if ?b then _ else _] => destruct b end);
      apply same_registry_refl.
  - unfold dispatch. rewrite Eopen, Eclose.
    destruct (String.eqb (ev_type ev) "exec");
      [apply wMsgHandler_exec_rows_posted|].
    repeat (match goal with |- context [if ?b then _ else _] => destruct b end);
      by apply rows_posted_refl.
  - by destruct ((dispatch env ev w).1.1).
Qed.

(** * Identifiers of opened handles *)

Lemma omap_opened_identifier_rows l :
  Forall is_StreamRow l → omap opened_identifier l = [].
Proof.
  induction 1 as [|m l Hm _ IH]; [done|]. destruct m; [|done]. simpl.
  exact IH.
Qed.

(** Serving a message either reports one new identifier, minted with the
    next sequence number for a fresh object, or reports none and mints
    none. *)
Lemma opened_identifiers_onmessage env ev w :
  Inv w →
  (∃ p,
     opened_identifiers (onmessage env ev w) =
       opened_identifiers w ++ [VStr (opened_id p w)] ∧
     idMap (wstate (onmessage env ev w)) =
       <[length (heap w) := opened_id p w]> (idMap (wstate w))) ∨
  (opened_identifiers (onmessage env ev w) = opened_identifiers w ∧
   idMap (wstate (onmessage env ev w)) = idMap (wstate w)).
Proof.
  intros HI.
  pose proof (onmessage_messages env ev w HI) as Hmsg.
  pose proof (onmessage_same_registry env ev w HI) as (_&_&Hmap&_&_).
  pose proof (dispatch_same_envelope env ev w) as (Hty&_).
  unfold opened_identifiers. rewrite Hmsg, omap_app. simpl.
  destruct (dispatch_served env ev w HI)
    as [p fn fN Htype Hd|r Htype Hr Hd|Hreg (l & Hl & Hrows) Hres].
  - left. exists p. rewrite Hd in *. simpl in *. rewrite Htype. simpl.
    split; [done|]. by rewrite Hmap.
  - right. rewrite Hd in *. simpl in *. rewrite Htype. simpl.
    rewrite app_nil_r. split; [done|]. by rewrite Hmap.
  - right. destruct Hreg as (_&_&Hmap'&_&_). rewrite Hmap, Hmap'.
    split; [|done].
    rewrite Hl, omap_app, (omap_opened_identifier_rows l Hrows), app_nil_r.
    destruct ((dispatch env ev w).1.1) as [v|e]; simpl; [|by rewrite app_nil_r].
    destruct Hres as [Hnopen _].
    destruct (String.eqb (ev_type ev) "open") eqn:E; [|by rewrite app_nil_r].
    by apply String.eqb_eq in E.
Qed.

Lemma identifiers_distinct_onmessage env ev w :
  Inv w → identifiers_distinct w → identifiers_distinct (onmessage env ev w).
Proof.
  intros HI (Hnd & Hrec & Hall). unfold identifiers_distinct.
  destruct (opened_identifiers_onmessage env ev w HI)
    as [(p & -> & ->)|[-> ->]]; [|done].
  pose proof (Inv_fresh_ref w HI) as Hfresh.
  split; [|split].
  - apply NoDup_app. split; [done|]. split; [|apply NoDup_singleton].
    intros v Hv ->%list_elem_of_singleton.
    destruct (Hrec _ Hv) as (r & id & [= <-] & Hr).
    destruct (inv_ids w HI _ _ Hr) as (_ & n & q & Hid & Hle).
    apply make_id_seq_inj in Hid. lia.
  - intros v [Hv| ->%list_elem_of_singleton]%elem_of_app.
    + destruct (Hrec _ Hv) as (r & id & -> & Hr).
      exists r, id. split; [done|].
      rewrite lookup_insert_ne; [done|]. intros <-. congruence.
    + eexists _, _. split; [done|]. apply lookup_insert_eq.
  - intros r id. rewrite lookup_insert. case_decide as Hr.
    + intros [= <-]. apply elem_of_app. right. by apply list_elem_of_singleton.
    + intros Hid. apply elem_of_app. left. by apply (Hall r).
Qed.

Lemma reachable_identifiers_distinct w : reachable w → identifiers_distinct w.
Proof.
  induction 1 as [|env ev w Hw IH].
  - split; [constructor|]. split.
    + intros v Hv. by apply elem_of_nil in Hv.
    + intros r id Hid. simpl in Hid. by rewrite lookup_empty in Hid.
  - apply identifiers_distinct_onmessage; [by apply reachable_Inv|done].
Qed.

(** C5. Whatever messages the worker serves, and whatever the engine
    answers to them (in particular whatever pointers it hands out, reused
    after a [close] or not), the handle identifiers returned by the
    successful [open] commands are pairwise distinct; and they are all the
    identifiers minted so far, so that each successful [open] returns an
    identifier distinct from every identifier minted before it. *)
Theorem open_identifiers_distinct queue :
  NoDup (opened_identifiers (run queue initial_World)) ∧
  (∀ r id,
     idMap (wstate (run queue initial_World)) !! r = Some id →
     VStr id ∈ opened_identifiers (run queue initial_World)).
Proof.
  destruct (reachable_identifiers_distinct (run queue initial_World))
    as (Hnd & _ & Hall); [|done].
  apply reachable_run, reachable_initial.
Qed.

(** The engine may hand out the same pointer again after a [close]; the
    identifiers differ all the same. *)
Example reopen_with_reused_pointer :
  opened_identifiers
    (run [(sample_env quiet_exec, request "open" VUndefined None);
          (sample_env quiet_exec, request "close" VUndefined None);
          (sample_env quiet_exec, request "open" VUndefined None)]
       initial_World) =
  [VStr "db#1@7"; VStr "db#2@7"].
Proof. vm_compute. reflexivity. Qed.

(** * The default handle *)

Lemma run_snoc queue env ev w :
  run (queue ++ [(env, ev)]) w = onmessage env ev (run queue w).
Proof.
  revert w. induction queue as [|[e v] queue IH]; intros w; simpl; [done|].
  apply IH.
Qed.

Lemma opens_true env ev :
  opens env ev = true →
  ev_type ev = "open" ∧
  truthy (get (js_or (ev_args ev) (VObject [])) "simulateError") = false ∧
  ∃ p fn fN, open_reply env ev = OpenReturns p fn fN.
Proof.
  unfold opens. intros H.
  apply andb_prop in H as [H Hreply]. apply andb_prop in H as [Htype Hsim].
  apply String.eqb_eq in Htype. apply negb_true_iff in Hsim.
  split; [done|]. split; [done|].
  destruct (open_reply env ev) as [e|p fn fN]; [done|]. eauto.
Qed.

(** The registry after an [open] that the engine answers with a handle. *)
Lemma onmessage_opens env ev w :
  Inv w → opens env ev = true →
  ∃ p fn fN, same_registry (opened_World p fn fN w) (onmessage env ev w).
Proof.
  intros HI (Htype & Hsim & p & fn & fN & Hnew)%opens_true.
  exists p, fn, fN.
  pose proof (onmessage_same_registry env ev w HI) as Hreg.
  rewrite (dispatch_open env ev w Htype) in Hreg.
  by rewrite (wMsgHandler_open_returns env ev p fn fN w HI Hsim Hnew) in Hreg.
Qed.

(** The registry after a [close] that reaches handle [r]. *)
Lemma onmessage_closes env ev w r :
  Inv w → ev_type ev = "close" → resolve (ev_dbId ev) w = Some r →
  same_registry (closed_World r (unlink_requested ev) w) (onmessage env ev w).
Proof.
  intros HI Htype Hr.
  pose proof (onmessage_same_registry env ev w HI) as Hreg.
  rewrite (dispatch_close env ev w Htype) in Hreg.
  by rewrite (wMsgHandler_close_eq ev w HI), routed_resolve, Hr in Hreg.
Qed.

Lemma closes_resolve ev w r :
  closes ev w = Some r →
  ev_type ev = "close" ∧ resolve (ev_dbId ev) w = Some r.
Proof.
  unfold closes, resolve.
  destruct (String.eqb (ev_type ev) "close") eqn:E; [|done].
  apply String.eqb_eq in E. intros H. split; [done|].
  destruct (ev_dbId ev) as [i|]; [|done]. by rewrite H.
Qed.

Lemma pointer_of_closed_World r b w :
  pointer_of r (closed_World r b w) = None.
Proof.
  unfold pointer_of, closed_World; simpl.
  destruct (heap w !! r) as [o|] eqn:Eo; [|by rewrite Eo].
  rewrite list_lookup_insert_eq; [done|]. by eapply lookup_lt_Some.
Qed.

(** The three ways in which serving a message can bear on the default
    handle: it leaves it as it is; or none was designated and the message
    is an [open] whose new handle becomes the default; or the message is
    a [close] that closes the default handle, after which none is
    designated. *)
Lemma default_step env ev w :
  Inv w →
  defaultDb (wstate (onmessage env ev w)) = defaultDb (wstate w) ∨
  (defaultDb (wstate w) = None ∧ opens env ev = true ∧
   defaultDb (wstate (onmessage env ev w)) = Some (length (heap w))) ∨
  (∃ d, defaultDb (wstate w) = Some d ∧ ev_type ev = "close" ∧
        pointer_of d (onmessage env ev w) = None ∧
        defaultDb (wstate (onmessage env ev w)) = None).
Proof.
  intros HI.
  pose proof (onmessage_same_registry env ev w HI) as (Hd & _ & _ & _ & Hh).
  unfold pointer_of. rewrite Hd, Hh.
  destruct (dispatch_served env ev w HI)
    as [p fn fN Htype Hdis|r Htype Hr Hdis|(Hsame & _) _ _].
  - rewrite Hdis. simpl.
    destruct (defaultDb (wstate w)) as [d|] eqn:Ed; [by left|].
    right. left. split; [done|]. split; [|done].
    rewrite (dispatch_open env ev w Htype) in Hdis.
    destruct (wMsgHandler_open env ev w) as [res w1] eqn:E.
    destruct (wMsgHandler_open_throws _ _ _ _ _ E)
      as [(e & -> & _)|(q & fn' & fN' & Hsim & Hnew)]; [done|].
    unfold opens, open_reply. by rewrite Htype, Hsim, Hnew.
  - rewrite Hdis. simpl.
    destruct (decide (defaultDb (wstate w) = Some r)) as [Hdef|Hne];
      [|by left].
    right. right. exists r. split; [done|]. split; [done|]. split; [|done].
    apply (pointer_of_closed_World r (unlink_requested ev) w).
  - left. by rewrite Hsame.
Qed.

Lemma app_snoc_split {A} (l served rest : list A) (x : A) :
  l ++ [x] = served ++ rest →
  (rest = [] ∧ served = l ++ [x]) ∨
  (∃ rest', rest = rest' ++ [x] ∧ l = served ++ rest').
Proof.
  destruct rest as [|y rest' _] using rev_ind.
  - rewrite app_nil_r. intros <-. by left.
  - rewrite app_assoc. intros [-> ->]%app_inj_tail. right. eauto.
Qed.

(** The default handle was opened by a message that found no default,
    and has been the default ever since. *)
Lemma run_designated_since queue d :
  defaultDb (wstate (run queue initial_World)) = Some d →
  designated_since queue d.
Proof.
  induction queue as [|[env ev] queue IH] using rev_ind; [done|].
  rewrite run_snoc. intros Hd.
  assert (Inv (run queue initial_World)) as HI
    by (apply reachable_Inv, reachable_run, reachable_initial).
  destruct (default_step env ev _ HI)
    as [Hsame|[(Hnone & Hopens & Hnew)|(d' & _ & _ & _ & Hcleared)]].
  - rewrite Hsame in Hd.
    destruct (IH Hd) as (before & env0 & ev0 & after & -> & H0 & Ho & Hl & Hall).
    exists before, env0, ev0, (after ++ [(env, ev)]).
    split; [by rewrite <- app_assoc|]. do 3 (split; [done|]).
    intros served rest [[-> ->]|(rest' & -> & ->)]%app_snoc_split.
    + rewrite app_comm_cons, app_assoc, run_snoc. by rewrite Hsame.
    + by apply (Hall served rest').
  - exists queue, env, ev, []. do 3 (split; [done|]).
    split; [congruence|].
    intros served rest Hnil. symmetry in Hnil.
    apply app_eq_nil in Hnil as [-> ->]. by rewrite run_snoc.
  - congruence.
Qed.

(** C6. The registry designates at most one default handle, the value of
    [wState.defaultDb], and after any queue of messages:
    - the default handle, when one is designated, is an open handle, and
      it is the first handle opened since the default was last clear: it
      was opened by a message that found no default, and it has been the
      default after every message since;
    - an [open] that the engine answers with a handle opens that handle,
      and designates it as the default exactly when none is designated;
    - a [close] addressed to an open handle, by its identifier or, for
      the default handle, by naming none, closes that handle and removes
      its entry; the default is cleared exactly when that handle is the
      default, and the other entries stay as they are: none is promoted;
    - serving a message bears on the default in no other way: it is set
      only by an [open] that finds none, to the handle just opened, and
      cleared only by a [close] that closes it;
    - a command that names no handle id is resolved to the default handle
      while one is designated, and fails with "DB is not opened." while
      none is. *)
Theorem default_handle_discipline queue env ev :
  let w := run queue initial_World in
  let w' := onmessage env ev w in
  (∀ d, defaultDb (wstate w) = Some d →
     is_Some (pointer_of d w) ∧ designated_since queue d) ∧
  (opens env ev = true →
     pointer_of (length (heap w)) w = None ∧
     is_Some (pointer_of (length (heap w)) w') ∧
     defaultDb (wstate w') =
       Some (default (length (heap w)) (defaultDb (wstate w)))) ∧
  (∀ r, closes ev w = Some r →
     is_Some (pointer_of r w) ∧
     pointer_of r w' = None ∧
     dbs (wstate w') = delete (id_of r w) (dbs (wstate w)) ∧
     defaultDb (wstate w') =
       if decide (defaultDb (wstate w) = Some r) then None
       else defaultDb (wstate w)) ∧
  (defaultDb (wstate w') = defaultDb (wstate w) ∨
   (defaultDb (wstate w) = None ∧ opens env ev = true ∧
    defaultDb (wstate w') = Some (length (heap w))) ∨
   (∃ d, defaultDb (wstate w) = Some d ∧ ev_type ev = "close" ∧
         pointer_of d w' = None ∧ defaultDb (wstate w') = None)) ∧
  (ev_dbId ev = None →
     getMsgDb ev true w =
       (match defaultDb (wstate w) with
        | Some d => Returns (Some d)
        | None => Throws (mkError "Error" "DB is not opened.")
        end, w)).
Proof.
  intros w w'.
  assert (Inv w) as HI
    by (apply reachable_Inv, reachable_run, reachable_initial).
  split; [|split; [|split; [|split]]].
  - intros d Hd. split; [|by apply run_designated_since].
    destruct (inv_default w HI _ Hd) as [id Hid].
    by apply (inv_dbs w HI _ _ Hid).
  - intros Hopens.
    destruct (onmessage_opens env ev w HI Hopens)
      as (p & fn & fN & Hd & _ & _ & _ & Hh).
    subst w'. unfold pointer_of. rewrite Hd, Hh. simpl.
    rewrite lookup_app_r, Nat.sub_diag by lia. simpl.
    split; [by rewrite lookup_ge_None_2|]. split; [by eexists|].
    by destruct (defaultDb (wstate w)).
  - intros r (Htype & Hr)%closes_resolve.
    destruct (onmessage_closes env ev w r HI Htype Hr)
      as (Hd & _ & _ & Hdbs & Hh).
    split.
    { rewrite <- routed_resolve in Hr by done.
      by apply (Inv_routed_open w (ev_dbId ev)). }
    subst w'. rewrite Hd, Hdbs. unfold pointer_of at 1. rewrite Hh.
    split; [apply (pointer_of_closed_World r (unlink_requested ev) w)|].
    done.
  - by apply default_step.
  - intros Hid. destruct (getMsgDb_resolve ev w HI) as [-> _].
    rewrite Hid. simpl. by destruct (defaultDb (wstate w)).
Qed.

(** After two handles are opened, a [close] that names no handle is
    addressed to the first, the default one: it is closed, and no default
    is designated afterwards although the second handle is still open. *)
Lemma default_handle_discipline_witness :
  let queue := [(sample_env quiet_exec, request "open" VUndefined None);
                (sample_env quiet_exec, request "open" VUndefined None)] in
  let ev := request "close" VUndefined None in
  let w := run queue initial_World in
  let w' := onmessage (sample_env quiet_exec) ev w in
  closes ev w = Some 0 ∧
  pointer_of 0 w' = None ∧
  defaultDb (wstate w') = None ∧
  dbs (wstate w') !! "db#2@7" = Some 1.
Proof.
  intros queue ev w w'.
  destruct (default_handle_discipline queue (sample_env quiet_exec) ev)
    as (_ & _ & Hclose & _).
  destruct (Hclose 0 eq_refl) as (_ & Hp & Hdbs & Hdef).
  split; [reflexivity|]. split; [exact Hp|]. split.
  - etrans; [exact Hdef|]. reflexivity.
  - etrans; [exact (f_equal (λ m, m !! "db#2@7") Hdbs)|].
    vm_compute. reflexivity.
Defined.

(** * Streaming [exec] *)

Lemma get_defined_put rc k k' x :
  get rc k ≠ VUndefined → is_Some (put rc k' x).
Proof. destruct rc; simpl; try done; eauto. Qed.

Lemma exec_body_streaming env ev rc w t r :
  Inv w →
  get rc "callback" = VStr t →
  resolve (ev_dbId ev) w = Some r →
  ∃ rc' w',
    exec_body env ev rc w = (exec_outcome (db_exec env r) rc', rc', w') ∧
    get rc' "callback" = VStr t ∧
    messages w' = messages w ++ streamed t (db_exec env r).
Proof.
  intros HI Hcb Hr. unfold exec_body, streamed, exec_outcome.
  destruct (getMsgDb_resolve ev w HI) as [-> _]. rewrite Hr, Hcb.
  destruct (get_defined_put rc "callback" "callback"
              (VFunction (RowPoster t))) as [rc1 Hrc1].
  { by rewrite Hcb. }
  rewrite Hrc1. simpl default.
  pose proof (get_put_eq _ _ _ _ Hrc1) as Hcb1.
  unfold engine_exec.
  set (rc0 := fold_left _ (column_names (db_exec env r)) rc1).
  assert (get rc0 "callback" = VFunction (RowPoster t)) as Hcb0.
  { subst rc0. by rewrite get_columnNames_pushed_ne. }
  match goal with |- context [engine_rows ?b ?rows ?c ?m ?x] =>
    destruct (engine_rows_streaming b rows c m x t Hcb0) as [Hcb2 Hmsg];
    destruct (engine_rows b rows c m x) as [[rc2 n2] w2] end.
  simpl in Hcb2, Hmsg.
  destruct (get_defined_put rc2 "callback" "callback" (VStr t)) as [rc3 Hrc3].
  { by rewrite Hcb2. }
  pose proof (get_put_eq _ _ _ _ Hrc3) as Hcb3.
  destruct (exec_throws (db_exec env r)) as [e|]; simpl.
  - rewrite Hcb2. simpl. rewrite Hrc3. simpl.
    eexists _, _. split; [done|]. split; [done|]. by rewrite app_nil_r.
  - rewrite Hcb2. simpl. rewrite Hrc3. simpl. rewrite Hcb3.
    destruct (get_defined_put rc3 "callback" "callback" (VStr t)) as [rc4 Hrc4].
    { by rewrite Hcb3. }
    rewrite Hrc4.
    pose proof (get_put_eq _ _ _ _ Hrc4) as Hcb4.
    destruct (truthy (VStr t)); simpl;
      (eexists _, _; split; [done|]; split; [done|]);
      by rewrite messages_post, Hmsg, <- app_assoc.
Qed.

(** [exec] on options that carry the string tag [t], in a mode other
    than ['stmt'], for a message routed to handle [r]. *)
Lemma wMsgHandler_exec_streaming env ev w t r :
  Inv w →
  get (ev_args ev) "callback" = VStr t →
  is_str (get (ev_args ev) "rowMode") "stmt" = false →
  resolve (ev_dbId ev) w = Some r →
  ∃ rc' w',
    wMsgHandler_exec env ev w =
      (exec_outcome (db_exec env r) rc', with_args true rc' ev, w') ∧
    get rc' "callback" = VStr t ∧
    messages w' = messages w ++ streamed t (db_exec env r).
Proof.
  intros HI Hcb Hmode Hr. unfold wMsgHandler_exec.
  assert (typeof_string (ev_args ev) = false) as ->.
  { destruct (ev_args ev); simpl in *; done. }
  assert (js_or (ev_args ev) (VObject []) = ev_args ev) as ->.
  { destruct (ev_args ev); simpl in *; done. }
  assert (truthy (ev_args ev) = true) as ->.
  { destruct (ev_args ev); simpl in *; done. }
  simpl negb. simpl andb.
  destruct (get (ev_args ev) "rowMode") eqn:Em; rewrite ?Hmode.
  1: destruct (get_defined_put (ev_args ev) "callback" "rowMode"
                 (VStr "array")) as [rc0 Hrc0]; [by rewrite Hcb|];
     rewrite Hrc0;
     destruct (exec_body_streaming env ev rc0 w t r HI) as (rc' & w' & -> & ?);
       [by rewrite (get_put_ne _ _ "rowMode" "callback" _ ltac:(done) Hrc0)
       |done|by eauto].
  all: destruct (exec_body_streaming env ev (ev_args ev) w t r HI Hcb Hr)
         as (rc' & w' & -> & ?); by eauto.
Qed.

Lemma row_messages_from_imap t n rows :
  row_messages_from t n rows =
    imap (fun i => row_message t (N.to_nat n + i)) rows.
Proof.
  revert n. induction rows as [|r rows IH]; intros n; simpl; [done|].
  f_equal.
  - unfold row_message. do 3 f_equal. lia.
  - rewrite IH. apply imap_ext. intros i x _. simpl.
    unfold row_message. do 3 f_equal. lia.
Qed.

Lemma streamed_imap t reply :
  streamed t reply =
    imap (row_message t) (map produced_row (produced reply)) ++
    match exec_throws reply with
    | None => [end_of_rows t]
    | Some _ => []
    end.
Proof. unfold streamed. by rewrite row_messages_from_imap. Qed.

(** C1, counterexample. When the engine throws after one row, the row
    message is followed by the error response; no end-of-results message
    is posted. *)
Lemma spec_stream_counterexample :
  resolve None one_open_World = Some 0 ∧
  ¬ spec_stream_holds (sample_env failing_exec)
      (request "exec" (VObject [("sql", VStr "select a from t");
                                ("callback", VStr "row")]) None)
      one_open_World "row" 0.
Proof.
  split; [vm_compute; reflexivity|].
  intros [resp H]. vm_compute in H. discriminate.
Qed.

(** C1, as amended. For an [exec] request whose options carry the string
    tag [t], whose row mode is not ['stmt'] and which is routed to an open
    handle, so that the engine is called: if the engine produces N rows,
    exactly N row messages of type [t] are posted, in order and numbered
    1 to N; if the engine then returns, they are followed by exactly one
    end-of-results message ([rowNumber] null, [row] undefined), also when
    N = 0, and by the response of type [exec]; if the engine throws, no
    end-of-results message is posted and the row messages are followed by
    the error response. *)
Theorem exec_streams_rows env ev w t r :
  reachable w →
  ev_type ev = "exec" →
  get (ev_args ev) "callback" = VStr t →
  is_str (get (ev_args ev) "rowMode") "stmt" = false →
  resolve (ev_dbId ev) w = Some r →
  ∃ resp,
    posted_since w (onmessage env ev w) =
      imap (row_message t) (map produced_row (produced (db_exec env r))) ++
      match exec_throws (db_exec env r) with
      | None => [end_of_rows t]
      | Some _ => []
      end ++ [Response resp] ∧
    type resp =
      match exec_throws (db_exec env r) with
      | None => "exec"
      | Some _ => "error"
      end.
Proof.
  intros Hw Htype Hcb Hmode Hr. apply reachable_Inv in Hw.
  pose proof (onmessage_messages env ev w Hw) as Hmsg.
  rewrite (dispatch_exec env ev w Htype) in Hmsg.
  destruct (wMsgHandler_exec_streaming env ev w t r Hw Hcb Hmode Hr)
    as (rc' & w' & Hexec & _ & Hposted).
  rewrite Hexec in Hmsg. simpl in Hmsg.
  rewrite Hposted, streamed_imap, <- !app_assoc in Hmsg.
  eexists. split; [by apply posted_since_app|].
  unfold exec_outcome. simpl. by destruct (exec_throws (db_exec env r)).
Qed.

Lemma exec_streams_rows_witness :
  reachable one_open_World ∧
  ∃ resp,
    posted_since one_open_World
      (onmessage (sample_env failing_exec)
         (request "exec" (VObject [("sql", VStr "select a from t");
                                   ("callback", VStr "row")]) None)
         one_open_World) =
      [row_message "row" 0 (VNum 10); Response resp] ∧
    type resp = "error".
Proof.
  split; [apply reachable_one_open_World|].
  apply (exec_streams_rows (sample_env failing_exec)
           (request "exec" (VObject [("sql", VStr "select a from t");
                                     ("callback", VStr "row")]) None)
           one_open_World "row" 0).
  - apply reachable_one_open_World.
  - reflexivity.
  - reflexivity.
  - reflexivity.
  - vm_compute. reflexivity.
Defined.

(** * The echoed options of a streaming [exec] *)

(** ** Function-free objects *)

Lemma set_prop_function_free o k v :
  props_have_function o = false → has_function v = false →
  props_have_function (set_prop o k v) = false.
Proof.
  intros Ho Hv. induction o as [|[k0 v0] o IH]; simpl in *.
  - by rewrite Hv.
  - apply orb_false_elim in Ho as [H0 Ho].
    destruct (String.eqb k k0); simpl; rewrite ?Hv, ?H0; simpl; auto.
Qed.

Lemma lookup_prop_function_free o k v :
  props_have_function o = false → lookup_prop o k = Some v →
  has_function v = false.
Proof.
  intros Ho. induction o as [|[k0 v0] o IH]; simpl in *; [done|].
  apply orb_false_elim in Ho as [H0 Ho].
  destruct (String.eqb k k0); [by intros [= <-]|auto].
Qed.

Lemma set_prop_set_prop o k x v :
  set_prop (set_prop o k x) k v = set_prop o k v.
Proof.
  induction o as [|[k0 v0] o IH]; simpl.
  - by rewrite String.eqb_refl.
  - destruct (String.eqb k k0) eqn:E; simpl.
    + by rewrite String.eqb_refl.
    + by rewrite E, IH.
Qed.

Lemma set_prop_lookup o k v : lookup_prop o k = Some v → set_prop o k v = o.
Proof.
  induction o as [|[k0 v0] o IH]; simpl; [done|].
  destruct (String.eqb k k0) eqn:E.
  - apply String.eqb_eq in E as ->. by intros [= ->].
  - intros H. by rewrite IH.
Qed.

Lemma rest_function_free_set_other o k v :
  k ≠ "callback" → has_function v = false →
  rest_function_free o → rest_function_free (set_prop o k v).
Proof.
  unfold rest_function_free. intros Hk Hv.
  assert (String.eqb "callback" k = false) as Ek.
  { apply String.eqb_neq. congruence. }
  induction o as [|[k0 v0] o IH]; cbn -[String.eqb].
  - rewrite Ek. cbn -[String.eqb]. by rewrite Hv.
  - destruct (String.eqb k k0) eqn:Ek0; cbn -[String.eqb].
    + apply String.eqb_eq in Ek0 as <-. rewrite Ek. cbn -[String.eqb].
      rewrite Hv. simpl. by intros [_ H]%orb_false_elim.
    + destruct (String.eqb "callback" k0) eqn:E; cbn -[String.eqb].
      * intros H. by apply set_prop_function_free.
      * intros [H0 H]%orb_false_elim. rewrite H0. simpl. auto.
Qed.

Lemma rest_function_free_lookup o k v :
  k ≠ "callback" → rest_function_free o → lookup_prop o k = Some v →
  has_function v = false.
Proof.
  unfold rest_function_free. intros Hk Ho Hv.
  apply (lookup_prop_function_free _ k v Ho).
  by rewrite lookup_set_prop_ne.
Qed.

Lemma echo_function_free_intro rc :
  has_function rc = false → echo_function_free rc.
Proof.
  destruct rc; simpl; try done.
  - intros [Hl Ho]%orb_false_elim. split; [done|].
    by apply set_prop_function_free.
  - intros Ho. by apply set_prop_function_free.
Qed.

Lemma echo_function_free_put_callback rc rc' v :
  put rc "callback" v = Some rc' →
  echo_function_free rc → echo_function_free rc'.
Proof.
  destruct rc; simpl; try done; intros [= <-]; simpl;
    unfold rest_function_free; rewrite set_prop_set_prop; done.
Qed.

Lemma echo_function_free_put_other rc rc' k v :
  k ≠ "callback" → has_function v = false →
  put rc k v = Some rc' →
  echo_function_free rc → echo_function_free rc'.
Proof.
  intros Hk Hv. destruct rc; simpl; try done; intros [= <-]; simpl.
  - intros [Hl Ho]. split; [done|]. by apply rest_function_free_set_other.
  - by apply rest_function_free_set_other.
Qed.

Lemma echo_function_free_get rc k :
  k ≠ "callback" → echo_function_free rc → has_function (get rc k) = false.
Proof.
  intros Hk. destruct rc; simpl; try done.
  - intros [_ Ho]. destruct (lookup_prop props k) eqn:E; [|done].
    by apply (rest_function_free_lookup props k).
  - intros Ho. destruct (lookup_prop props k) eqn:E; [|done].
    by apply (rest_function_free_lookup props k).
Qed.

Lemma echo_function_free_push_into rc k x :
  k ≠ "callback" → has_function x = false →
  echo_function_free rc → echo_function_free (push_into rc k x).
Proof.
  intros Hk Hx Hrc. unfold push_into.
  pose proof (echo_function_free_get rc k Hk Hrc) as Hget.
  destruct (get rc k) as [| | | | | |l o|] eqn:E; try done.
  destruct (put rc k (VArray (l ++ [x]) o)) as [rc'|] eqn:Ep; [|done].
  simpl.
  apply (echo_function_free_put_other rc rc' k (VArray (l ++ [x]) o));
    try done.
  simpl in *. apply orb_false_elim in Hget as [Hl Ho].
  rewrite existsb_app, Hl, Ho. simpl. by rewrite Hx.
Qed.

Lemma echo_function_free_elim rc t :
  echo_function_free rc → get rc "callback" = VStr t →
  has_function rc = false.
Proof.
  destruct rc; simpl; try done.
  - intros [Hl Ho] Hcb. rewrite Hl. simpl.
    destruct (lookup_prop props "callback") as [v|] eqn:E; [|done].
    simpl in Hcb. subst v. rewrite <- (set_prop_lookup _ _ _ E).
    fold (props_have_function (set_prop props "callback" (VStr t))).
    unfold rest_function_free in Ho.
    rewrite <- (set_prop_set_prop props "callback" VUndefined (VStr t)).
    by apply set_prop_function_free.
  - intros Ho Hcb.
    destruct (lookup_prop props "callback") as [v|] eqn:E; [|done].
    simpl in Hcb. subst v. rewrite <- (set_prop_lookup _ _ _ E).
    fold (props_have_function (set_prop props "callback" (VStr t))).
    unfold rest_function_free in Ho.
    rewrite <- (set_prop_set_prop props "callback" VUndefined (VStr t)).
    by apply set_prop_function_free.
Qed.

(** ** The options object through [exec] *)

Lemma engine_rows_echo b rows rc n w :
  Forall (fun e => has_function (produced_row e) = false) rows →
  echo_function_free rc →
  echo_function_free (engine_rows b rows rc n w).1.1.
Proof.
  intros Hrows. revert rc n w.
  induction Hrows as [|r rows Hr _ IH]; intros rc n w Hrc; simpl; [done|].
  assert (echo_function_free (push_into rc "resultRows" (produced_row r)))
    as Hrc1 by (by apply echo_function_free_push_into).
  destruct (get (push_into rc "resultRows" (produced_row r)) "callback")
    as [| | | | |[t]| |]; by apply IH.
Qed.

Lemma columnNames_echo names rc :
  Forall (fun c => has_function c = false) names →
  echo_function_free rc →
  echo_function_free
    (fold_left (fun c x => push_into c "columnNames" x) names rc).
Proof.
  intros Hnames. revert rc.
  induction Hnames as [|x names Hx _ IH]; intros rc Hrc; simpl; [done|].
  apply IH. by apply echo_function_free_push_into.
Qed.

Lemma echo_function_free_default_put rc v :
  echo_function_free rc →
  echo_function_free (default rc (put rc "callback" v)).
Proof.
  intros Hrc. destruct (put rc "callback" v) as [rc'|] eqn:E; [|done].
  simpl. by apply (echo_function_free_put_callback rc rc' v).
Qed.

Lemma exec_body_echo env ev rc w :
  (∀ r, engine_function_free (db_exec env r)) →
  echo_function_free rc →
  echo_function_free (exec_body env ev rc w).1.2.
Proof.
  intros Hengine Hrc. unfold exec_body.
  destruct (getMsgDb ev true w) as [[[db|]|e] w1]; simpl; try done.
  destruct (Hengine db) as [Hrows Hnames].
  set (rc1 := match get rc "callback" with VStr t => _ | _ => rc end).
  assert (echo_function_free rc1) as Hrc1.
  { subst rc1. destruct (get rc "callback"); try done.
    by apply echo_function_free_default_put. }
  unfold engine_exec.
  set (rc0 := fold_left _ (column_names (db_exec env db)) rc1).
  assert (echo_function_free rc0) as Hrc0 by (by apply columnNames_echo).
  match goal with |- context [engine_rows ?b ?rows ?c ?m ?x] =>
    pose proof (engine_rows_echo b rows c m x Hrows Hrc0) as Hrc2;
    destruct (engine_rows b rows c m x) as [[rc2 n2] w2] end.
  simpl in Hrc2.
  destruct (exec_throws (db_exec env db)) as [e|]; simpl.
  - destruct (truthy (get rc2 "callback")); simpl; [|done].
    by apply echo_function_free_default_put.
  - destruct (instanceof_Function (get rc2 "callback")); simpl.
    + destruct (truthy (get (default rc2 _) "callback")); simpl;
        repeat apply echo_function_free_default_put; done.
    + destruct (truthy (get rc2 "callback")); simpl; [|done].
      by apply echo_function_free_default_put.
Qed.

Lemma exec_body_unresolved env ev rc w :
  Inv w → resolve (ev_dbId ev) w = None →
  exec_body env ev rc w = (Throws (mkError "Error" "DB is not opened."), rc, w).
Proof.
  intros HI Hr. unfold exec_body.
  destruct (getMsgDb_resolve ev w HI) as [-> _]. by rewrite Hr.
Qed.

Lemma exec_body_result env ev rc w :
  match (exec_body env ev rc w).1.1 with
  | Returns v => v = (exec_body env ev rc w).1.2
  | Throws _ => True
  end.
Proof.
  unfold exec_body.
  destruct (getMsgDb ev true w) as [[[db|]|e] w1]; simpl; try done.
  destruct (engine_exec _ _ _ w1) as [[[[]|e] rc2] w2]; simpl; [|done].
  by destruct (instanceof_Function (get rc2 "callback")).
Qed.

(** [exec] on options that carry the string tag [t]: whatever happens,
    the options object that the message holds afterwards has its
    [callback] back, a returned result is that very object, and the
    object holds no function if it held none and the engine hands out
    none. *)
Lemma wMsgHandler_exec_echo env ev w t :
  Inv w →
  get (ev_args ev) "callback" = VStr t →
  get (ev_args (wMsgHandler_exec env ev w).1.2) "callback" = VStr t ∧
  match (wMsgHandler_exec env ev w).1.1 with
  | Returns v => v = ev_args (wMsgHandler_exec env ev w).1.2
  | Throws _ => True
  end ∧
  (has_function (ev_args ev) = false →
   (∀ r, engine_function_free (db_exec env r)) →
   has_function (ev_args (wMsgHandler_exec env ev w).1.2) = false).
Proof.
  intros HI Hcb.
  assert (∀ rc0,
    get rc0 "callback" = VStr t →
    (echo_function_free (ev_args ev) → echo_function_free rc0) →
    ∀ out, out = (let '(r, rc'', w') := exec_body env ev rc0 w in
                  (r, with_args true rc'' ev, w')) →
    get (ev_args out.1.2) "callback" = VStr t ∧
    match out.1.1 with
    | Returns v => v = ev_args out.1.2
    | Throws _ => True
    end ∧
    (has_function (ev_args ev) = false →
     (∀ r, engine_function_free (db_exec env r)) →
     has_function (ev_args out.1.2) = false))
    as Hbody.
  { intros rc0 Hcb0 Hecho out ->.
    pose proof (exec_body_result env ev rc0 w) as Hres.
    pose proof (exec_body_echo env ev rc0 w) as Hfree.
    assert (get (exec_body env ev rc0 w).1.2 "callback" = VStr t) as Hcb'.
    { destruct (resolve (ev_dbId ev) w) as [r|] eqn:Er.
      - destruct (exec_body_streaming env ev rc0 w t r HI Hcb0 Er)
          as (rc' & w' & -> & ? & _). done.
      - by rewrite exec_body_unresolved. }
    destruct (exec_body env ev rc0 w) as [[r rc''] w']. simpl in *.
    split; [done|]. split; [done|]. intros Hargs Hengine.
    apply (echo_function_free_elim _ t); [|done].
    apply Hfree; [done|]. by apply Hecho, echo_function_free_intro. }
  unfold wMsgHandler_exec.
  assert (typeof_string (ev_args ev) = false) as ->.
  { destruct (ev_args ev); simpl in *; done. }
  assert (js_or (ev_args ev) (VObject []) = ev_args ev) as ->.
  { destruct (ev_args ev); simpl in *; done. }
  assert (truthy (ev_args ev) = true) as ->.
  { destruct (ev_args ev); simpl in *; done. }
  simpl negb. simpl andb.
  destruct (get (ev_args ev) "rowMode") eqn:Em;
    try (destruct (is_str _ "stmt"); [by simpl|];
         by apply (Hbody (ev_args ev))).
  destruct (get_defined_put (ev_args ev) "callback" "rowMode"
              (VStr "array")) as [rc0 Hrc0]; [by rewrite Hcb|].
  rewrite Hrc0. apply (Hbody rc0); [| |done].
  - by rewrite (get_put_ne _ _ "rowMode" "callback" _ ltac:(done) Hrc0).
  - by apply (echo_function_free_put_other _ _ "rowMode" (VStr "array")).
Qed.

(** C10. For an [exec] request whose options carry a string tag, the
    options object echoed in the response has its [callback] property
    restored to that string, never left as the function installed by
    [exec]: in the result when the command succeeds, and in the [args] of
    the echoed request when it fails. The echoed options then hold no
    function at all, provided the request held none and the engine hands
    out none in its rows and column names. *)
Theorem exec_restores_callback env ev w t :
  reachable w →
  ev_type ev = "exec" →
  get (ev_args ev) "callback" = VStr t →
  ∃ resp echoed,
    last_response (onmessage env ev w) = Some resp ∧
    match result resp with
    | Success rc => type resp = "exec" ∧ rc = echoed
    | Failure p => type resp = "error" ∧ ev_args (input p) = echoed
    end ∧
    get echoed "callback" = VStr t ∧
    (has_function (ev_args ev) = false →
     (∀ r, engine_function_free (db_exec env r)) →
     has_function echoed = false).
Proof.
  intros Hw Htype Hcb. apply reachable_Inv in Hw.
  pose proof (onmessage_last_response env ev w Hw) as Hlast.
  pose proof (dispatch_same_envelope env ev w) as (Hty & _).
  rewrite (dispatch_exec env ev w Htype) in Hlast, Hty.
  destruct (wMsgHandler_exec_echo env ev w t Hw Hcb) as (Hcb' & Hres & Hfree).
  destruct (wMsgHandler_exec env ev w) as [[r ev'] w']. simpl in *.
  exists (response_to env ev r ev' w'), (ev_args ev').
  split; [done|]. split; [|done].
  destruct r as [v|e]; simpl; [|done]. by rewrite Htype.
Qed.

Lemma exec_restores_callback_witness :
  reachable one_open_World ∧
  ∃ resp echoed,
    last_response
      (onmessage (sample_env failing_exec)
         (request "exec" (VObject [("sql", VStr "select a from t");
                                   ("callback", VStr "row")]) None)
         one_open_World) = Some resp ∧
    match result resp with
    | Success rc => type resp = "exec" ∧ rc = echoed
    | Failure p => type resp = "error" ∧ ev_args (input p) = echoed
    end ∧
    get echoed "callback" = VStr "row" ∧
    (has_function (VObject [("sql", VStr "select a from t");
                            ("callback", VStr "row")]) = false →
     (∀ r, engine_function_free (db_exec (sample_env failing_exec) r)) →
     has_function echoed = false).
Proof.
  split; [apply reachable_one_open_World|].
  apply (exec_restores_callback (sample_env failing_exec)
           (request "exec" (VObject [("sql", VStr "select a from t");
                                     ("callback", VStr "row")]) None)
           one_open_World "row").
  - apply reachable_one_open_World.
  - reflexivity.
  - reflexivity.
Defined.

(** * What [exec] leaves of the inbound message *)

Lemma eqb_false_of_ne (s t : string) : s ≠ t → String.eqb s t = false.
Proof. intros H. by apply String.eqb_neq. Qed.

Lemma dispatch_message_kept env ev w :
  ev_type ev ≠ "exec" → (dispatch env ev w).1.2 = ev.
Proof.
  intros Hne. unfold dispatch. rewrite (eqb_false_of_ne _ _ Hne).
  repeat (match goal with |- context [if ?b then _ else _] => destruct b end);
    match goal with |- context [?m w] => by destruct (m w) end.
Qed.

Lemma get_default_put_same rc k c :
  get rc k = c → get (default rc (put rc k c)) k = c.
Proof.
  intros H. destruct (put rc k c) as [rc'|] eqn:E; [|done].
  simpl. by apply (get_put_eq _ _ _ _ E).
Qed.

Lemma get_default_put_ne rc k k' c :
  k ≠ k' → get (default rc (put rc k c)) k' = get rc k'.
Proof.
  intros H. destruct (put rc k c) as [rc'|] eqn:E; [|done].
  simpl. by apply (get_put_ne _ _ _ _ _ H E).
Qed.

Lemma engine_rows_get_ne b rows rc n w k :
  k ≠ "resultRows" → get (engine_rows b rows rc n w).1.1 k = get rc k.
Proof.
  intros Hk. revert rc n w. induction rows as [|r rows IH]; intros rc n w;
    simpl; [done|].
  destruct (get (push_into rc "resultRows" (produced_row r)) "callback")
    as [| | | | |[t]| |]; simpl; rewrite IH; by apply get_push_into_ne.
Qed.

Lemma engine_exec_get_ne reply b rc w k :
  k ≠ "resultRows" → k ≠ "columnNames" →
  get (engine_exec reply b rc w).1.2 k = get rc k.
Proof.
  intros H1 H2. unfold engine_exec.
  match goal with |- context [engine_rows ?b ?rows ?c ?m ?x] =>
    pose proof (engine_rows_get_ne b rows c m x k H1) as H;
    destruct (engine_rows b rows c m x) as [[rc1 n1] w1] end.
  simpl in H. rewrite get_columnNames_pushed_ne in H by done.
  by destruct (exec_throws reply).
Qed.

(** [exec_body] leaves every property of the options alone, apart from
    the two that the engine fills. *)
Lemma exec_body_get env ev rc w k :
  Inv w → k ≠ "resultRows" → k ≠ "columnNames" →
  get (exec_body env ev rc w).1.2 k = get rc k.
Proof.
  intros HI H1 H2.
  destruct (resolve (ev_dbId ev) w) as [r|] eqn:Er;
    [|by rewrite exec_body_unresolved].
  destruct (String.eqb k "callback") eqn:Ek.
  - apply String.eqb_eq in Ek. subst k.
    destruct (get rc "callback") as [| | | |t|f| |] eqn:Ec;
      try (destruct (exec_body_streaming env ev rc w t r HI Ec Er)
             as (rc' & w' & -> & ? & _); done);
      unfold exec_body; destruct (getMsgDb_resolve ev w HI) as [-> _];
      rewrite Er, Ec;
      match goal with |- context [engine_exec ?reply ?b ?c ?x] =>
        pose proof (engine_exec_get_ne reply b c x "callback"
                      ltac:(done) ltac:(done)) as H;
        destruct (engine_exec reply b c x) as [[[[]|e] rc2] w2] end;
      simpl in H; rewrite Ec in H; simpl; rewrite H; simpl;
      rewrite ?get_default_put_same; rewrite ?H; simpl;
      rewrite ?get_default_put_same; try done;
      repeat case_match; simpl; rewrite ?get_default_put_same; done.
  - assert ("callback" ≠ k) as Hne.
    { intros <-. by rewrite String.eqb_refl in Ek. }
    unfold exec_body. destruct (getMsgDb_resolve ev w HI) as [-> _].
    rewrite Er.
    set (rc1 := match get rc "callback" with VStr t => _ | _ => rc end).
    assert (get rc1 k = get rc k) as Hrc1.
    { subst rc1. destruct (get rc "callback"); try done.
      by apply get_default_put_ne. }
    match goal with |- context [engine_exec ?reply ?b ?c ?x] =>
      pose proof (engine_exec_get_ne reply b c x k H1 H2) as H;
      destruct (engine_exec reply b c x) as [[[[]|e] rc2] w2] end;
      simpl in H; simpl.
    + destruct (instanceof_Function (get rc2 "callback")); simpl;
        match goal with |- context [if truthy ?x then _ else _] =>
          destruct (truthy x) end; simpl;
        rewrite ?get_default_put_ne by done; congruence.
    + destruct (truthy (get rc2 "callback")); simpl;
        rewrite ?get_default_put_ne by done; congruence.
Qed.

(** * The correlation id *)

(** [exec] leaves every property of [ev.args] alone, apart from the row
    mode and the two that the engine fills. *)
Lemma wMsgHandler_exec_keeps env ev w k :
  Inv w → k ≠ "rowMode" → k ≠ "resultRows" → k ≠ "columnNames" →
  get (ev_args (wMsgHandler_exec env ev w).1.2) k = get (ev_args ev) k.
Proof.
  intros HI H1 H2 H3. unfold wMsgHandler_exec.
  destruct (negb (typeof_string (ev_args ev)) && truthy (ev_args ev)) eqn:Ea.
  - apply andb_prop in Ea as [Hs Ht]. apply negb_true_iff in Hs.
    rewrite Hs. unfold js_or. rewrite Ht.
    assert (∀ rc0,
      get (ev_args (let '(r, rc'', w') := exec_body env ev rc0 w in
                    (r, with_args true rc'' ev, w')).1.2) k = get rc0 k)
      as Hbody.
    { intros rc0. pose proof (exec_body_get env ev rc0 w k HI H2 H3) as Hget.
      by destruct (exec_body env ev rc0 w) as [[r rc''] w']. }
    destruct (get (ev_args ev) "rowMode") eqn:Em.
    1: { destruct (put (ev_args ev) "rowMode" (VStr "array")) as [rc'|] eqn:Ep;
           [|done].
         rewrite Hbody. by apply (get_put_ne _ _ "rowMode" k _ ltac:(done) Ep). }
    all: match goal with |- context [is_str ?m "stmt"] =>
           destruct (is_str m "stmt") end; [done|apply Hbody].
  - unfold with_args.
    repeat (match goal with
            | |- context [match ?x with _ => _ end] => destruct x; simpl
            end); done.
Qed.

Lemma message_after_keeps env ev w k :
  Inv w → k ≠ "rowMode" → k ≠ "resultRows" → k ≠ "columnNames" →
  get (ev_args (message_after env ev w)) k = get (ev_args ev) k.
Proof.
  intros HI H1 H2 H3. unfold message_after.
  destruct (String.eqb (ev_type ev) "exec") eqn:E.
  - apply String.eqb_eq in E. rewrite (dispatch_exec env ev w E).
    by apply wMsgHandler_exec_keeps.
  - rewrite dispatch_message_kept; [done|].
    intros H. rewrite H in E. discriminate.
Qed.

Lemma follow_kept args args' path :
  (∀ k, k ≠ "rowMode" → k ≠ "resultRows" → k ≠ "columnNames" →
     get args' k = get args k) →
  written_by_exec path = false →
  follow args' path = follow args path.
Proof.
  intros Hk. destruct path as [|k rest]; [done|]. simpl.
  intros [[H1 H2]%orb_false_elim H3]%orb_false_elim.
  apply String.eqb_neq in H1, H2, H3.
  unfold follow. simpl. by rewrite Hk.
Qed.

Lemma linked_induction (P : linked → Prop) :
  (∀ v, P (Own v)) →
  (∀ path, P (Shared path)) →
  (∀ elems props,
     Forall P elems → Forall (λ kv, P kv.2) props →
     P (LinkedArray elems props)) →
  (∀ props, Forall (λ kv, P kv.2) props → P (LinkedObject props)) →
  ∀ l, P l.
Proof.
  intros HO HS HA HL. fix IH 1. intros [v|path|elems props|props].
  - apply HO.
  - apply HS.
  - apply HA.
    + induction elems as [|e elems IHe]; constructor; [apply IH|apply IHe].
    + induction props as [|[k x] props IHp]; constructor; [apply IH|apply IHp].
  - apply HL.
    induction props as [|[k x] props IHp]; constructor; [apply IH|apply IHp].
Qed.

(** A linked value that shares no object that [exec] writes to holds
    after the call what it held before. *)
Lemma read_untouched args args' l :
  (∀ k, k ≠ "rowMode" → k ≠ "resultRows" → k ≠ "columnNames" →
     get args' k = get args k) →
  untouched_by_exec l = true → read args' l = read args l.
Proof.
  intros Hk. induction l as [v|path|elems props IHe IHp|props IHp]
    using linked_induction; simpl.
  - done.
  - intros H%negb_true_iff. by rewrite (follow_kept args args' path Hk H).
  - intros [He Hp]%andb_prop. f_equal.
    + induction IHe as [|e elems IH _ IHl]; [done|]. simpl in *.
      apply andb_prop in He as [H1 H2]. by rewrite IH, IHl.
    + induction IHp as [|[k x] props IH _ IHl]; [done|]. simpl in *.
      apply andb_prop in Hp as [H1 H2]. by rewrite IH, IHl.
  - intros Hp. f_equal.
    induction IHp as [|[k x] props IH _ IHl]; [done|]. simpl in *.
    apply andb_prop in Hp as [H1 H2]. by rewrite IH, IHl.
Qed.

(** C9, counterexample. An [exec] request whose [messageId] is its own
    options object: the client sent [{sql: "select 1"}] as the options
    and as the correlation id, and the response carries
    [{sql: "select 1", rowMode: "array"}], the object as [exec] left
    it. *)
Lemma shared_messageId_counterexample :
  ¬ spec_mirrors_messageId (sample_env quiet_exec)
      (mkRequest "exec" (VObject [("sql", VStr "select 1")]) None
         (Shared []) (Own VUndefined))
      one_open_World.
Proof.
  intros (resp & Hlast & Hid). vm_compute in Hlast.
  injection Hlast as <-. vm_compute in Hid. discriminate.
Qed.

(** C9, as amended. For every inbound message served in a reachable
    world, whether the handler returns or throws, a response envelope is
    posted last, and its [messageId] is the [messageId] property of the
    inbound message, read when the response is built. It is the value
    that the client sent, [undefined] included, for every command other
    than [exec], and for [exec] whenever the correlation id shares no
    object with the options that [exec] writes to (the options object
    itself and its [resultRows] and [columnNames]): in particular for
    every correlation id that is a primitive value or an object of its
    own. *)
Theorem response_mirrors_messageId env ev w :
  reachable w →
  ∃ resp,
    last_response (onmessage env ev w) = Some resp ∧
    messageId resp =
      read (ev_args (message_after env ev w)) (ev_messageId ev) ∧
    (ev_type ev ≠ "exec" ∨ untouched_by_exec (ev_messageId ev) = true →
     messageId resp = sent_messageId ev).
Proof.
  intros Hw. apply reachable_Inv in Hw.
  eexists. split; [by apply onmessage_last_response|].
  destruct (dispatch_same_envelope env ev w) as (_ & _ & Hm & _).
  unfold message_after, sent_messageId. simpl. rewrite Hm.
  split; [done|]. intros [Hne|Hun].
  - by rewrite dispatch_message_kept.
  - apply read_untouched; [|done]. intros k H1 H2 H3.
    by apply (message_after_keeps env ev w k).
Qed.

Lemma response_mirrors_messageId_witness :
  let ev := mkRequest "exec"
              (VObject [("sql", VStr "select ?"); ("bind", VArray [VNum 5] [])])
              None
              (LinkedObject [("n", Own (VNum 1)); ("bind", Shared ["bind"])])
              (Own VUndefined) in
  reachable one_open_World ∧
  ∃ resp,
    last_response (onmessage (sample_env quiet_exec) ev one_open_World) =
      Some resp ∧
    messageId resp =
      VObject [("n", VNum 1); ("bind", VArray [VNum 5] [])].
Proof.
  intros ev. split; [apply reachable_one_open_World|].
  destruct (response_mirrors_messageId (sample_env quiet_exec) ev
              one_open_World reachable_one_open_World)
    as (resp & Hlast & _ & Hsent).
  exists resp. split; [exact Hlast|].
  etrans; [apply Hsent; right; reflexivity|]. reflexivity.
Defined.

(** * Further properties *)

(** ** [getDbId] *)

(** X1. [getDbId] is stable: it returns a non-empty identifier and
    records it, so that a second call for the same handle returns the same
    identifier and changes nothing. It never lowers the sequence
    number and never touches the entries of [dbs], the default handle or
    the objects. *)
Theorem getDbId_stable db w :
  ∃ id w1,
    getDbId db w = (Returns id, w1) ∧
    id ≠ "" ∧
    idMap (wstate w1) !! db = Some id ∧
    getDbId db w1 = (Returns id, w1) ∧
    (idSeq (wstate w) ≤ idSeq (wstate w1))%N ∧
    dbs (wstate w1) = dbs (wstate w) ∧
    defaultDb (wstate w1) = defaultDb (wstate w) ∧
    heap w1 = heap w.
Proof.
  assert (∀ w0, idMap (wstate w0) !! db = None ∨
                idMap (wstate w0) !! db = Some "" →
    ∃ id w1,
      getDbId db w0 = (Returns id, w1) ∧ id ≠ "" ∧
      idMap (wstate w1) !! db = Some id ∧
      getDbId db w1 = (Returns id, w1) ∧
      (idSeq (wstate w0) ≤ idSeq (wstate w1))%N ∧
      dbs (wstate w1) = dbs (wstate w0) ∧
      defaultDb (wstate w1) = defaultDb (wstate w0) ∧
      heap w1 = heap w0) as Hmint.
  { intros w0 Hw0.
    assert (getDbId db w0 = mint_id db w0) as ->.
    { unfold getDbId, bind, gets. by destruct Hw0 as [-> | ->]. }
    unfold mint_id. eexists _, _. split; [done|].
    split; [done|]. simpl. rewrite lookup_insert_eq. split; [done|].
    split.
    - unfold getDbId, bind, gets. simpl. by rewrite lookup_insert_eq.
    - split; [lia|done]. }
  destruct (idMap (wstate w) !! db) as [id|] eqn:E; [|by apply Hmint; left].
  destruct (String.eqb id "") eqn:Eid.
  - apply String.eqb_eq in Eid as ->. apply Hmint. by right.
  - assert (getDbId db w = (Returns id, w)) as Hget.
    { unfold getDbId, bind, gets. rewrite E. simpl. by rewrite Eid. }
    exists id, w. rewrite Hget. repeat split; try done; try lia.
    all: try (intros ->; by rewrite String.eqb_refl in Eid).
Qed.

(** ** The dispatcher: one response for each message *)

(** Commands other than [exec] post nothing and leave the transfer list
    alone. *)
Lemma dispatch_quiet env ev w :
  Inv w → ev_type ev ≠ "exec" →
  outbox (dispatch env ev w).2 = outbox w ∧
  xfer (wstate (dispatch env ev w).2) = xfer (wstate w).
Proof.
  intros HI Hne.
  destruct (dispatch_served env ev w HI)
    as [p fn fN Htype Hd|r Htype Hr Hd|_ _ _].
  - by rewrite Hd.
  - by rewrite Hd.
  - unfold dispatch. rewrite (eqb_false_of_ne _ _ Hne).
    destruct (String.eqb (ev_type ev) "open") eqn:Eopen.
    { apply String.eqb_eq in Eopen.
      destruct (wMsgHandler_open env ev w) as [r w'] eqn:E.
      destruct (wMsgHandler_open_throws _ _ _ _ _ E)
        as [(e & -> & ->)|(p & fn & fN & Hsim & Hnew)]; [done|].
      rewrite (wMsgHandler_open_returns env ev p fn fN w HI Hsim Hnew) in E.
      by injection E as <- <-. }
    destruct (String.eqb (ev_type ev) "close") eqn:Eclose.
    { rewrite wMsgHandler_close_eq by done.
      by destruct (routed (ev_dbId ev) w). }
    repeat (match goal with |- context [if ?b then _ else _] => destruct b end);
      done.
Qed.

Lemma dispatch_rows_posted env ev w :
  Inv w → rows_posted w (dispatch env ev w).2.
Proof.
  intros HI.
  destruct (String.eqb (ev_type ev) "exec") eqn:E.
  - apply String.eqb_eq in E. rewrite (dispatch_exec env ev w E).
    apply wMsgHandler_exec_rows_posted.
  - apply rows_posted_refl. unfold messages.
    destruct (dispatch_quiet env ev w HI) as [-> _]; [|done].
    intros H. rewrite H in E. discriminate.
Qed.

(** X2. Every inbound message is answered by exactly one response
    envelope, posted last; what precedes it are row messages only, and
    there are none unless the command is [exec]. *)
Theorem one_response_per_message env ev w :
  reachable w →
  ∃ rows resp,
    posted_since w (onmessage env ev w) = rows ++ [Response resp] ∧
    Forall is_StreamRow rows ∧
    (ev_type ev ≠ "exec" → rows = []).
Proof.
  intros Hw. apply reachable_Inv in Hw.
  pose proof (onmessage_messages env ev w Hw) as Hmsg.
  destruct (dispatch_rows_posted env ev w Hw) as (rows & Hrows & Hall).
  rewrite Hrows, <- app_assoc in Hmsg.
  exists rows. eexists. split; [by apply posted_since_app|].
  split; [done|]. intros Hne.
  destruct (dispatch_quiet env ev w Hw Hne) as [Hout _].
  unfold messages in Hrows. rewrite Hout in Hrows.
  apply (f_equal length) in Hrows. rewrite length_app in Hrows.
  destruct rows; [done|]. simpl in Hrows. lia.
Qed.

Lemma one_response_per_message_witness :
  reachable one_open_World ∧
  ∃ rows resp,
    posted_since one_open_World
      (onmessage (sample_env failing_exec)
         (request "exec" (VObject [("sql", VStr "select a from t");
                                   ("callback", VStr "row")]) None)
         one_open_World) = rows ++ [Response resp] ∧
    Forall is_StreamRow rows ∧
    ("exec" ≠ "exec" → rows = []).
Proof.
  split; [apply reachable_one_open_World|].
  apply (one_response_per_message (sample_env failing_exec)
           (request "exec" (VObject [("sql", VStr "select a from t");
                                     ("callback", VStr "row")]) None)
           one_open_World).
  apply reachable_one_open_World.
Defined.

(** ** The shape of a response *)

Lemma dispatch_returns_command env ev w v :
  (dispatch env ev w).1.1 = Returns v →
  ev_type ev ∈ ["open"; "close"; "exec"; "config-get"].
Proof.
  unfold dispatch.
  destruct (String.eqb (ev_type ev) "open") eqn:E1.
  { apply String.eqb_eq in E1 as ->. intros _. set_solver. }
  destruct (String.eqb (ev_type ev) "close") eqn:E2.
  { apply String.eqb_eq in E2 as ->. intros _. set_solver. }
  destruct (String.eqb (ev_type ev) "exec") eqn:E3.
  { apply String.eqb_eq in E3 as ->. intros _. set_solver. }
  destruct (String.eqb (ev_type ev) "config-get") eqn:E4.
  { apply String.eqb_eq in E4 as ->. intros _. set_solver. }
  repeat (match goal with |- context [if ?b then _ else _] => destruct b end);
    done.
Qed.

(** X3. A response is of type [error] exactly when its result is an
    error payload. A successful response carries the type of the request,
    which is then one of [open], [close], [exec] and [config-get]. An
    error payload names the type of the request as its [operation],
    carries the name and the message of the exception, and echoes the
    inbound message object as the handler left it. For every command but
    [exec] that is the very request. For [exec] it has the type and the
    handle id of the request and the same values or objects as its
    [messageId] and [departureTime], while its [args] are as [exec] left
    them; a [messageId] or [departureTime] that shares an object with
    [args] therefore shows that object as [exec] left it, in the echo as
    in the envelope, which carries the same two properties. *)
Theorem response_shape env ev w :
  reachable w →
  ∃ resp,
    last_response (onmessage env ev w) = Some resp ∧
    match result resp with
    | Success _ =>
        type resp = ev_type ev ∧
        ev_type ev ∈ ["open"; "close"; "exec"; "config-get"]
    | Failure p =>
        type resp = "error" ∧
        operation p = ev_type ev ∧
        input p = message_after env ev w ∧
        same_envelope ev (input p) ∧
        (ev_type ev ≠ "exec" → input p = ev) ∧
        messageId resp = read (ev_args (input p)) (ev_messageId (input p)) ∧
        departureTime resp =
          read (ev_args (input p)) (ev_departureTime (input p)) ∧
        ∃ err, (dispatch env ev w).1.1 = Throws err ∧
               message p = err_message err ∧ errorClass p = err_name err
    end.
Proof.
  intros Hw. apply reachable_Inv in Hw.
  eexists. split; [by apply onmessage_last_response|].
  pose proof (dispatch_same_envelope env ev w) as Henv.
  pose proof (dispatch_returns_command env ev w) as Hcmd.
  pose proof (dispatch_message_kept env ev w) as Hkept.
  unfold message_after.
  destruct (dispatch env ev w) as [[[v|err] ev'] w1]; simpl in *.
  - split; [done|]. by apply (Hcmd v).
  - split; [done|]. split; [apply Henv|]. do 5 (split; [done|]).
    by exists err.
Qed.

(** An [exec] that fails for want of a handle, sent with its options
    object as correlation id: the options have received the default row
    mode by then, and the correlation id of the response and that of the
    echoed message show it. *)
Lemma response_shape_witness :
  let ev := mkRequest "exec" (VObject [("sql", VStr "select 1")]) None
              (Shared []) (Own (VNum 12)) in
  reachable initial_World ∧
  ∃ resp p,
    last_response (onmessage (sample_env quiet_exec) ev initial_World) =
      Some resp ∧
    result resp = Failure p ∧
    type resp = "error" ∧
    operation p = "exec" ∧
    ev_args (input p) =
      VObject [("sql", VStr "select 1"); ("rowMode", VStr "array")] ∧
    ev_messageId (input p) = Shared [] ∧
    messageId resp =
      VObject [("sql", VStr "select 1"); ("rowMode", VStr "array")] ∧
    departureTime resp = VNum 12.
Proof.
  intros ev. split; [apply reachable_initial|].
  destruct (response_shape (sample_env quiet_exec) ev initial_World
              reachable_initial) as (resp & Hlast & Hshape).
  assert (∃ p, result resp = Failure p ∧
               input p = message_after (sample_env quiet_exec) ev
                           initial_World) as (p & Hres & Hinput).
  { vm_compute in Hlast. injection Hlast as <-. eexists. split; reflexivity. }
  exists resp, p. split; [exact Hlast|]. split; [exact Hres|].
  rewrite Hres in Hshape.
  destruct Hshape as (Hty & Hop & _ & _ & _ & Hm & Hd & _).
  split; [exact Hty|]. split; [exact Hop|].
  rewrite Hm, Hd, Hinput. repeat split; reflexivity.
Defined.

(** ** Commands that fail without touching anything *)

(** A [try] block that throws at once, having changed nothing. *)
Lemma onmessage_of_throw env ev w err :
  Inv w →
  dispatch env ev w = (Throws err, ev, w) →
  ∃ resp failure,
    posted_since w (onmessage env ev w) = [Response resp] ∧
    type resp = "error" ∧
    result resp = Failure failure ∧
    operation failure = ev_type ev ∧
    errorClass failure = err_name err ∧
    message failure = err_message err ∧
    input failure = ev ∧
    same_registry w (onmessage env ev w) ∧
    unlinked (onmessage env ev w) = unlinked w.
Proof.
  intros HI Hd.
  pose proof (onmessage_messages env ev w HI) as Hmsg.
  pose proof (onmessage_same_registry env ev w HI) as Hreg.
  pose proof (f_equal unlinked (onmessage_eq env ev w HI)) as Hunl.
  rewrite unlinked_post in Hunl.
  rewrite Hd in Hmsg, Hreg, Hunl. simpl in *.
  eexists _, _. split; [by apply posted_since_app|].
  split; [done|]. split; [reflexivity|]. simpl.
  do 4 (split; [done|]). split; [exact Hreg|exact Hunl].
Qed.

(** X4. A message whose type is not the name of a command is answered
    by an error response whose message names the type, and changes
    nothing else. *)
Theorem unknown_command_fails env ev w :
  reachable w →
  ev_type ev ∉ command_names →
  ∃ resp failure,
    posted_since w (onmessage env ev w) = [Response resp] ∧
    type resp = "error" ∧
    result resp = Failure failure ∧
    operation failure = ev_type ev ∧
    errorClass failure = "Error" ∧
    message failure = "Unknown db worker message type: " +:+ ev_type ev ∧
    input failure = ev ∧
    same_registry w (onmessage env ev w) ∧
    unlinked (onmessage env ev w) = unlinked w.
Proof.
  intros Hw Hnot. apply reachable_Inv in Hw.
  apply (onmessage_of_throw env ev w
           (toss [VStr "Unknown db worker message type:"; VStr (ev_type ev)]));
    [done|].
  unfold dispatch, command_names in *.
  rewrite !eqb_false_of_ne; [done|..]; intros H; apply Hnot; rewrite H;
    set_solver.
Qed.

Lemma unknown_command_fails_witness :
  reachable one_open_World ∧
  ∃ resp failure,
    posted_since one_open_World
      (onmessage (sample_env quiet_exec) (request "vacuum" VUndefined None)
         one_open_World) = [Response resp] ∧
    type resp = "error" ∧
    result resp = Failure failure ∧
    operation failure = "vacuum" ∧
    errorClass failure = "Error" ∧
    message failure = "Unknown db worker message type: vacuum" ∧
    input failure = request "vacuum" VUndefined None ∧
    same_registry one_open_World
      (onmessage (sample_env quiet_exec) (request "vacuum" VUndefined None)
         one_open_World) ∧
    unlinked
      (onmessage (sample_env quiet_exec) (request "vacuum" VUndefined None)
         one_open_World) = unlinked one_open_World.
Proof.
  split; [apply reachable_one_open_World|].
  apply (unknown_command_fails (sample_env quiet_exec)
           (request "vacuum" VUndefined None) one_open_World).
  - apply reachable_one_open_World.
  - apply (bool_decide_unpack _). vm_compute. exact I.
Defined.

(** X5. [export] fails for every request and in every state, with the
    message that it awaits reimplementation; it resolves no handle and
    changes nothing. *)
Theorem export_always_fails env ev w :
  reachable w →
  ev_type ev = "export" →
  ∃ resp failure,
    posted_since w (onmessage env ev w) = [Response resp] ∧
    type resp = "error" ∧
    result resp = Failure failure ∧
    operation failure = "export" ∧
    errorClass failure = "Error" ∧
    message failure =
      "export() requires reimplementing for portability reasons." ∧
    input failure = ev ∧
    same_registry w (onmessage env ev w) ∧
    unlinked (onmessage env ev w) = unlinked w.
Proof.
  intros Hw Htype. apply reachable_Inv in Hw.
  destruct (onmessage_of_throw env ev w
              (toss [VStr "export() requires reimplementing for portability reasons."])
              Hw) as (resp & failure & H).
  { unfold dispatch. by rewrite Htype. }
  rewrite Htype in H. by exists resp, failure.
Qed.

Lemma export_always_fails_witness :
  reachable one_open_World ∧
  ∃ resp failure,
    posted_since one_open_World
      (onmessage (sample_env quiet_exec) (request "export" VUndefined None)
         one_open_World) = [Response resp] ∧
    type resp = "error" ∧
    result resp = Failure failure ∧
    operation failure = "export" ∧
    errorClass failure = "Error" ∧
    message failure =
      "export() requires reimplementing for portability reasons." ∧
    input failure = request "export" VUndefined None ∧
    same_registry one_open_World
      (onmessage (sample_env quiet_exec) (request "export" VUndefined None)
         one_open_World) ∧
    unlinked
      (onmessage (sample_env quiet_exec) (request "export" VUndefined None)
         one_open_World) = unlinked one_open_World.
Proof.
  split; [apply reachable_one_open_World|].
  apply (export_always_fails (sample_env quiet_exec)
           (request "export" VUndefined None) one_open_World).
  - apply reachable_one_open_World.
  - reflexivity.
Defined.

(** X6. [open] with a truthy [simulateError] argument fails with the
    message of the flag before the engine is asked to open anything, and
    changes nothing. *)
Theorem open_simulateError_fails env ev w :
  reachable w →
  ev_type ev = "open" →
  truthy (get (ev_args ev) "simulateError") = true →
  ∃ resp failure,
    posted_since w (onmessage env ev w) = [Response resp] ∧
    type resp = "error" ∧
    result resp = Failure failure ∧
    operation failure = "open" ∧
    errorClass failure = "Error" ∧
    message failure = "Throwing because of simulateError flag." ∧
    input failure = ev ∧
    same_registry w (onmessage env ev w) ∧
    unlinked (onmessage env ev w) = unlinked w.
Proof.
  intros Hw Htype Hsim. apply reachable_Inv in Hw.
  destruct (onmessage_of_throw env ev w
              (toss [VStr "Throwing because of simulateError flag."]) Hw)
    as (resp & failure & H).
  { rewrite (dispatch_open env ev w Htype). unfold wMsgHandler_open.
    assert (js_or (ev_args ev) (VObject []) = ev_args ev) as ->.
    { destruct (ev_args ev); simpl in *; done. }
    by rewrite Hsim. }
  rewrite Htype in H. by exists resp, failure.
Qed.

Lemma open_simulateError_fails_witness :
  reachable initial_World ∧
  ∃ resp failure,
    posted_since initial_World
      (onmessage (sample_env quiet_exec)
         (request "open" (VObject [("simulateError", VBool true)]) None)
         initial_World) = [Response resp] ∧
    type resp = "error" ∧
    result resp = Failure failure ∧
    operation failure = "open" ∧
    errorClass failure = "Error" ∧
    message failure = "Throwing because of simulateError flag." ∧
    input failure =
      request "open" (VObject [("simulateError", VBool true)]) None ∧
    same_registry initial_World
      (onmessage (sample_env quiet_exec)
         (request "open" (VObject [("simulateError", VBool true)]) None)
         initial_World) ∧
    unlinked
      (onmessage (sample_env quiet_exec)
         (request "open" (VObject [("simulateError", VBool true)]) None)
         initial_World) = unlinked initial_World.
Proof.
  split; [apply reachable_initial|].
  apply (open_simulateError_fails (sample_env quiet_exec)
           (request "open" (VObject [("simulateError", VBool true)]) None)
           initial_World).
  - apply reachable_initial.
  - reflexivity.
  - reflexivity.
Defined.

(** ** Only [open] and [close] change the registry *)

Lemma dispatch_frame env ev w :
  ev_type ev ≠ "open" → ev_type ev ≠ "close" →
  same_registry w (dispatch env ev w).2 ∧
  unlinked (dispatch env ev w).2 = unlinked w.
Proof.
  intros Hopen Hclose. unfold dispatch.
  rewrite (eqb_false_of_ne _ _ Hopen), (eqb_false_of_ne _ _ Hclose).
  destruct (String.eqb (ev_type ev) "exec").
  { destruct (wMsgHandler_exec_frame env ev w) as (H & U & _). done. }
  repeat (match goal with |- context [if ?b then _ else _] => destruct b end);
    (split; [apply same_registry_refl|done]).
Qed.

(** X7. A command other than [open] and [close], whether it succeeds or
    fails, leaves the registry as it was: the default handle, the
    sequence number, the identifiers, the entries of [dbs] and the
    objects are unchanged, and no file is unlinked. In particular a
    failing [exec] closes nothing. *)
Theorem only_open_and_close_change_registry env ev w :
  reachable w →
  ev_type ev ≠ "open" →
  ev_type ev ≠ "close" →
  same_registry w (onmessage env ev w) ∧
  unlinked (onmessage env ev w) = unlinked w.
Proof.
  intros Hw Hopen Hclose. apply reachable_Inv in Hw.
  destruct (dispatch_frame env ev w Hopen Hclose) as [Hreg Hunl].
  split.
  - eapply same_registry_trans; [exact Hreg|].
    by apply onmessage_same_registry.
  - rewrite onmessage_eq by done. by rewrite unlinked_post.
Qed.

Lemma only_open_and_close_change_registry_witness :
  reachable one_open_World ∧
  same_registry one_open_World
    (onmessage (sample_env failing_exec)
       (request "exec" (VStr "select a from t") None) one_open_World) ∧
  unlinked
    (onmessage (sample_env failing_exec)
       (request "exec" (VStr "select a from t") None) one_open_World) =
  unlinked one_open_World.
Proof.
  split; [apply reachable_one_open_World|].
  apply (only_open_and_close_change_registry (sample_env failing_exec)
           (request "exec" (VStr "select a from t") None) one_open_World).
  - apply reachable_one_open_World.
  - discriminate.
  - discriminate.
Defined.

(** ** The transfer list *)

Lemma xfer_post_true msg w : xfer (wstate (wState_post msg true w)) = [].
Proof.
  unfold wState_post. simpl.
  destruct (xfer (wstate w)) as [|b l] eqn:E; simpl; [|done].
  by rewrite E.
Qed.

Lemma sent_and_pending_post msg b w :
  sent_and_pending (wState_post msg b w) = sent_and_pending w.
Proof.
  unfold wState_post, sent_and_pending.
  destruct b; simpl.
  - destruct (xfer (wstate w)) as [|x l] eqn:E; simpl.
    + rewrite E, map_app, concat_app. simpl. by rewrite !app_nil_r.
    + rewrite map_app, concat_app. simpl. by rewrite !app_nil_r.
  - rewrite map_app, concat_app. simpl. by rewrite !app_nil_r.
Qed.

Lemma reachable_xfer_empty w : reachable w → xfer (wstate w) = [].
Proof.
  induction 1 as [|env ev w Hw IH]; [done|].
  rewrite onmessage_eq by (by apply reachable_Inv). apply xfer_post_true.
Qed.

(** X8. Between messages the transfer list is empty: the response to a
    message takes along every buffer that is still waiting in
    [wState.xfer], and [wState.post] then empties the list. *)
Theorem transfer_list_empty_between_messages queue :
  xfer (wstate (run queue initial_World)) = [].
Proof. apply reachable_xfer_empty, reachable_run, reachable_initial. Qed.

Lemma engine_rows_sent b rows rc n w :
  sent_and_pending (engine_rows b rows rc n w).2 =
    sent_and_pending w ++
    (if b then concat (map produced_blobs rows) else []).
Proof.
  revert rc n w. induction rows as [|r rows IH]; intros rc n w; simpl.
  - destruct b; by rewrite app_nil_r.
  - set (w1 := if b then _ else w).
    assert (sent_and_pending w1 =
            sent_and_pending w ++ (if b then produced_blobs r else [])) as H1.
    { subst w1. destruct b; [|by rewrite app_nil_r].
      unfold sent_and_pending. simpl. by rewrite app_assoc. }
    destruct (get (push_into rc "resultRows" (produced_row r)) "callback")
      as [| | | | |[t]| |]; simpl;
      unfold call_RowPoster; rewrite IH, ?sent_and_pending_post, H1;
      destruct b; by rewrite <- ?app_assoc, ?app_nil_r.
Qed.

Lemma exec_body_sent env ev rc w r :
  Inv w → resolve (ev_dbId ev) w = Some r →
  sent_and_pending (exec_body env ev rc w).2 =
    sent_and_pending w ++
    (if wants_blobXfer rc
     then concat (map produced_blobs (produced (db_exec env r)))
     else []).
Proof.
  intros HI Hr. unfold exec_body.
  destruct (getMsgDb_resolve ev w HI) as [-> _]. rewrite Hr.
  fold (wants_blobXfer rc). unfold engine_exec.
  match goal with |- context [engine_rows ?b ?rows ?c ?m ?x] =>
    pose proof (engine_rows_sent b rows c m x) as H;
    destruct (engine_rows b rows c m x) as [[rc2 n2] w2] end.
  simpl in H.
  destruct (exec_throws (db_exec env r)); simpl; [done|].
  destruct (instanceof_Function (get rc2 "callback")); simpl; [|done].
  by rewrite sent_and_pending_post.
Qed.

Lemma wMsgHandler_exec_sent env ev w r :
  Inv w →
  is_str (get (ev_args ev) "rowMode") "stmt" = false →
  resolve (ev_dbId ev) w = Some r →
  sent_and_pending (wMsgHandler_exec env ev w).2 =
    sent_and_pending w ++
    (if wants_blobXfer (ev_args ev)
     then concat (map produced_blobs (produced (db_exec env r)))
     else []).
Proof.
  intros HI Hmode Hr. unfold wMsgHandler_exec.
  set (rc := if typeof_string (ev_args ev) then _ else _).
  set (aliased := negb _ && _).
  assert (wants_blobXfer rc = wants_blobXfer (ev_args ev)) as Hwants.
  { subst rc. unfold wants_blobXfer, js_or.
    destruct (ev_args ev) as [| |[]|n| | | |]; simpl; try done.
    by destruct (negb (n =? 0)%Z). }
  assert (is_str (get rc "rowMode") "stmt" = false) as Hmode'.
  { subst rc. unfold js_or.
    destruct (ev_args ev) as [| |[]|n| | | |]; simpl; try done.
    by destruct (negb (n =? 0)%Z). }
  assert (∀ c, wants_blobXfer c = wants_blobXfer (ev_args ev) →
    sent_and_pending
      (let '(r0, rc'', w') := exec_body env ev c w in
       (r0, with_args aliased rc'' ev, w')).2 =
    sent_and_pending w ++
    (if wants_blobXfer (ev_args ev)
     then concat (map produced_blobs (produced (db_exec env r)))
     else [])) as Hbody.
  { intros c Hc. pose proof (exec_body_sent env ev c w r HI Hr) as H.
    destruct (exec_body env ev c w) as [[??]?]. simpl in *. by rewrite <- Hc. }
  destruct (get rc "rowMode") eqn:Em; rewrite ?Hmode';
    try (by apply Hbody).
  destruct (put rc "rowMode" (VStr "array")) as [rc'|] eqn:Ep.
  - apply Hbody. rewrite <- Hwants. unfold wants_blobXfer.
    by rewrite (get_put_ne _ _ "rowMode" "callback" _ ltac:(done) Ep),
      (get_put_ne _ _ "rowMode" "resultRows" _ ltac:(done) Ep).
  - simpl. rewrite <- Hwants.
    assert (wants_blobXfer rc = false) as ->; [|by rewrite app_nil_r].
    unfold wants_blobXfer. by destruct rc.
Qed.

(** X9. An [exec] that reaches the engine hands every blob buffer to the
    channel exactly once and in order: when the options carry a callback
    or an array [resultRows], so that [db._blobXfer] is set, the transfer
    lists of the messages posted for the request, the response included,
    add up to the buffers of the produced rows; otherwise no buffer is
    transferred. Nothing stays behind in [wState.xfer], whether the
    engine returns or throws. *)
Theorem exec_hands_over_blobs env ev w r :
  reachable w →
  ev_type ev = "exec" →
  is_str (get (ev_args ev) "rowMode") "stmt" = false →
  resolve (ev_dbId ev) w = Some r →
  transferred (onmessage env ev w) =
    transferred w ++
    (if wants_blobXfer (ev_args ev)
     then concat (map produced_blobs (produced (db_exec env r)))
     else []) ∧
  xfer (wstate (onmessage env ev w)) = [].
Proof.
  intros Hw Htype Hmode Hr.
  pose proof (reachable_xfer_empty w Hw) as Hempty.
  apply reachable_Inv in Hw.
  pose proof (wMsgHandler_exec_sent env ev w r Hw Hmode Hr) as Hsent.
  rewrite onmessage_eq by done.
  rewrite (dispatch_exec env ev w Htype).
  split; [|apply xfer_post_true].
  match goal with |- transferred ?x = _ =>
    assert (transferred x = sent_and_pending x) as -> end.
  { unfold sent_and_pending. rewrite xfer_post_true. by rewrite app_nil_r. }
  rewrite sent_and_pending_post, Hsent.
  unfold sent_and_pending. by rewrite Hempty, app_nil_r.
Qed.

(** An engine that produces two rows, the second with a blob buffer. *)
Lemma exec_hands_over_blobs_witness :
  reachable one_open_World ∧
  transferred
    (onmessage
       (sample_env (mkExecReply [mkRowEvent (VNum 1) [];
                                 mkRowEvent (VNum 2) [40; 41]] [] None))
       (request "exec" (VObject [("sql", VStr "select a from t");
                                 ("resultRows", VArray [] [])]) None)
       one_open_World) =
    transferred one_open_World ++ [40; 41] ∧
  xfer (wstate
    (onmessage
       (sample_env (mkExecReply [mkRowEvent (VNum 1) [];
                                 mkRowEvent (VNum 2) [40; 41]] [] None))
       (request "exec" (VObject [("sql", VStr "select a from t");
                                 ("resultRows", VArray [] [])]) None)
       one_open_World)) = [].
Proof.
  split; [apply reachable_one_open_World|].
  apply (exec_hands_over_blobs
           (sample_env (mkExecReply [mkRowEvent (VNum 1) [];
                                     mkRowEvent (VNum 2) [40; 41]] [] None))
           (request "exec" (VObject [("sql", VStr "select a from t");
                                     ("resultRows", VArray [] [])]) None)
           one_open_World 0).
  - apply reachable_one_open_World.
  - reflexivity.
  - reflexivity.
  - vm_compute. reflexivity.
Defined.

(** ** The registry and the engine agree *)

Lemma Inv_opened_id_fresh p w :
  Inv w →
  dbs (wstate w) !! opened_id p w = None ∧
  ∀ r, idMap (wstate w) !! r ≠ Some (opened_id p w).
Proof.
  intros HI.
  assert (∀ r, idMap (wstate w) !! r ≠ Some (opened_id p w)) as Hfresh.
  { intros r Hr. destruct (inv_ids w HI _ _ Hr) as (_ & n & q & Hid & Hle).
    apply make_id_seq_inj in Hid. lia. }
  split; [|done].
  destruct (dbs (wstate w) !! opened_id p w) as [r|] eqn:E; [|done].
  destruct (inv_dbs w HI _ _ E) as [Hm _]. by destruct (Hfresh r).
Qed.

Lemma counted_same_registry w w' : same_registry w w' → counted w → counted w'.
Proof.
  intros (Hd&Hs&Hi&Hm&Hh) (Ha&Hb&Hc). unfold counted, id_of, pointer_of.
  rewrite Hs, Hi, Hm, Hh. done.
Qed.

Lemma counted_opened_World p fn fN w :
  Inv w → counted w → counted (opened_World p fn fN w).
Proof.
  intros HI (Ha&Hb&Hc).
  destruct (Inv_opened_id_fresh p w HI) as [Hfresh Hnew].
  unfold counted, id_of, pointer_of. simpl. rewrite length_app. simpl.
  split; [lia|]. split.
  - intros r Hr. destruct (decide (r = length (heap w))) as [->|Hne].
    + rewrite lookup_insert_eq. eauto.
    + rewrite lookup_insert_ne by done. apply Hb. lia.
  - intros r Hr. destruct (decide (r = length (heap w))) as [->|Hne].
    + by rewrite !lookup_insert_eq.
    + assert (r < length (heap w)) as Hlt.
      { destruct ((heap w ++ _) !! r) as [o|] eqn:E; [|by destruct Hr].
        apply lookup_lt_Some in E. rewrite length_app in E. simpl in E. lia. }
      rewrite lookup_app_l in Hr by done.
      rewrite (lookup_insert_ne (idMap (wstate w))) by done.
      specialize (Hc r Hr). unfold id_of in Hc.
      rewrite lookup_insert_ne; [done|].
      intros Heq. unfold id_of in Hc. rewrite <- Heq in Hc. congruence.
Qed.

Lemma counted_closed_World r0 b w id :
  Inv w → routed id w = Some r0 → counted w → counted (closed_World r0 b w).
Proof.
  intros HI Hr0 (Ha&Hb&Hc).
  destruct (Inv_routed_filed w _ r0 HI Hr0) as [_ Hfiled].
  destruct (Inv_routed_open w _ r0 HI Hr0) as [p0 Hp0].
  unfold pointer_of in Hp0.
  destruct (heap w !! r0) as [o0|] eqn:Eo; [|done].
  unfold counted, pointer_of. simpl. rewrite Eo, length_insert.
  split; [done|]. split; [done|].
  intros r Hr. destruct (decide (r = r0)) as [->|Hne].
  - rewrite list_lookup_insert_eq in Hr by (by eapply lookup_lt_Some).
    by destruct Hr.
  - rewrite list_lookup_insert_ne in Hr by done.
    specialize (Hc r Hr).
    change (id_of r (closed_World r0 b w)) with (id_of r w).
    rewrite lookup_delete_ne; [done|]. intros Heq. rewrite Heq in Hfiled.
    congruence.
Qed.

Lemma counted_onmessage env ev w :
  Inv w → counted w → counted (onmessage env ev w).
Proof.
  intros HI Hc.
  apply (counted_same_registry _ _ (onmessage_same_registry env ev w HI)).
  destruct (dispatch_served env ev w HI)
    as [p fn fN Htype Hd|r Htype Hr Hd|Hsame _ _].
  - rewrite Hd. simpl. by apply counted_opened_World.
  - rewrite Hd. simpl. rewrite <- routed_resolve in Hr by done.
    by eapply counted_closed_World.
  - by eapply counted_same_registry.
Qed.

Lemma reachable_counted w : reachable w → counted w.
Proof.
  induction 1 as [|env ev w Hw IH].
  - split; [done|]. split.
    + simpl. lia.
    + intros r [p Hp]. by unfold pointer_of in Hp.
  - apply counted_onmessage; [by apply reachable_Inv|done].
Qed.

(** X10. After any sequence of messages the registry and the engine
    agree: [idSeq] is the number of handles opened so far, each of them
    has an identifier on record, every entry of [dbs] files an open handle
    under its own identifier, every open handle is an entry of [dbs] (a
    handle is never left open and unregistered), and the default handle
    is an open handle. *)
Theorem registry_stays_consistent queue :
  registry_consistent (run queue initial_World).
Proof.
  assert (reachable (run queue initial_World)) as Hw
    by apply reachable_run, reachable_initial.
  destruct (reachable_counted _ Hw) as (Ha & Hb & Hc).
  apply reachable_Inv in Hw.
  split; [done|]. split; [done|]. split; [|split; [done|]].
  - intros id r Hr. destruct (inv_dbs _ Hw _ _ Hr) as [Hm Hp].
    split; [|done]. unfold id_of. by rewrite Hm.
  - intros d Hd. destruct (inv_default _ Hw _ Hd) as [id Hid].
    by apply (inv_dbs _ Hw _ _ Hid).
Qed.

(** ** [open] and the lookup of the new handle *)

Lemma get_js_or_empty a k : get (js_or a (VObject [])) k = get a k.
Proof.
  unfold js_or. destruct (truthy a) eqn:E; [done|].
  by destruct a.
Qed.

(** X11. A successful [open] is answered by one response of type [open]
    whose result carries the engine's file name, the [persistent] flag
    (the persistent directory is set and is a prefix of that file name)
    and a new identifier ['db#'+(idSeq+1)+'@'+pointer] under which nothing
    was filed. The new handle is filed under that identifier, it becomes
    the default handle only if there was none, and from then on a request
    that names the identifier is resolved to the new handle. *)
Theorem open_registers_handle env ev w p fn fN :
  reachable w →
  ev_type ev = "open" →
  truthy (get (ev_args ev) "simulateError") = false →
  open_reply env ev = OpenReturns p fn fN →
  ∃ resp,
    posted_since w (onmessage env ev w) = [Response resp] ∧
    type resp = "open" ∧
    result resp =
      Success (VObject [("filename", VStr fn);
                        ("persistent",
                         VBool (negb (String.eqb (persistent_dir env) "")
                                && String.prefix (persistent_dir env) fn));
                        ("dbId", VStr (opened_id p w))]) ∧
    dbs (wstate w) !! opened_id p w = None ∧
    dbs (wstate (onmessage env ev w)) =
      <[opened_id p w := length (heap w)]> (dbs (wstate w)) ∧
    pointer_of (length (heap w)) (onmessage env ev w) = Some p ∧
    defaultDb (wstate (onmessage env ev w)) =
      match defaultDb (wstate w) with
      | None => Some (length (heap w))
      | Some d => Some d
      end ∧
    ∀ t a m dt,
      getMsgDb (mkRequest t a (Some (opened_id p w)) m dt) true
        (onmessage env ev w) =
      (Returns (Some (length (heap w))), onmessage env ev w).
Proof.
  intros Hw Htype Hsim Hopen. apply reachable_Inv in Hw.
  rewrite <- (get_js_or_empty (ev_args ev)) in Hsim.
  pose proof (wMsgHandler_open_returns env ev p fn fN w Hw Hsim Hopen) as Hd.
  pose proof (onmessage_messages env ev w Hw) as Hmsg.
  pose proof (onmessage_same_registry env ev w Hw) as Hreg.
  pose proof (onmessage_Inv env ev w Hw) as HI'.
  rewrite (dispatch_open env ev w Htype), Hd in Hmsg, Hreg. simpl in *.
  destruct Hreg as (Hdef & _ & _ & Hdbs & Hheap). simpl in *.
  eexists. split; [by apply posted_since_app|].
  split; [exact Htype|]. split; [reflexivity|].
  split; [by apply Inv_opened_id_fresh|]. split; [done|].
  split.
  { unfold pointer_of. rewrite Hheap.
    by rewrite lookup_app_r, Nat.sub_diag by lia. }
  split; [by rewrite Hdef; destruct (defaultDb (wstate w))|].
  intros t a m dt.
  destruct (getMsgDb_resolve (mkRequest t a (Some (opened_id p w)) m dt)
              _ HI') as [-> _].
  simpl. by rewrite Hdbs, lookup_insert_eq.
Qed.

Lemma open_registers_handle_witness :
  reachable one_open_World ∧
  ∃ resp,
    posted_since one_open_World
      (onmessage (sample_env quiet_exec)
         (request "open" VUndefined None) one_open_World) = [Response resp] ∧
    type resp = "open" ∧
    result resp =
      Success (VObject [("filename", VStr "");
                        ("persistent", VBool false);
                        ("dbId", VStr "db#2@7")]) ∧
    dbs (wstate one_open_World) !! "db#2@7" = None ∧
    dbs (wstate (onmessage (sample_env quiet_exec)
                   (request "open" VUndefined None) one_open_World)) =
      <["db#2@7" := 1]> (dbs (wstate one_open_World)) ∧
    pointer_of 1
      (onmessage (sample_env quiet_exec)
         (request "open" VUndefined None) one_open_World) = Some 7%positive ∧
    defaultDb (wstate (onmessage (sample_env quiet_exec)
                         (request "open" VUndefined None) one_open_World)) =
      Some 0 ∧
    ∀ t a m dt,
      getMsgDb (mkRequest t a (Some "db#2@7") m dt) true
        (onmessage (sample_env quiet_exec)
           (request "open" VUndefined None) one_open_World) =
      (Returns (Some 1),
       onmessage (sample_env quiet_exec)
         (request "open" VUndefined None) one_open_World).
Proof.
  split; [apply reachable_one_open_World|].
  apply (open_registers_handle (sample_env quiet_exec)
           (request "open" VUndefined None) one_open_World 7 "" "").
  - apply reachable_one_open_World.
  - reflexivity.
  - reflexivity.
  - reflexivity.
Defined.

(** ** [close] of an open handle *)

(** X12. A [close] request that names an open handle closes that handle
    and no other: the response, posted under the same handle id, carries
    the handle's [filename] and identifier; the handle loses its pointer
    and its entry of [dbs]; every other handle keeps its pointer and its
    entry; the identifiers on record stay; the default is cleared exactly
    when the closed handle was the default; and the file is unlinked
    exactly when [args] is an object with a truthy [unlink] and
    [db.fileName()] is non-empty. *)
Theorem close_of_open_handle env ev w id r :
  reachable w →
  ev_type ev = "close" →
  ev_dbId ev = Some id →
  dbs (wstate w) !! id = Some r →
  ∃ resp,
    posted_since w (onmessage env ev w) = [Response resp] ∧
    type resp = "close" ∧
    dbId resp = VStr id ∧
    result resp =
      Success (VObject [("filename", VStr (db_filename_of r w));
                        ("dbId", VStr id)]) ∧
    pointer_of r (onmessage env ev w) = None ∧
    dbs (wstate (onmessage env ev w)) = delete id (dbs (wstate w)) ∧
    (∀ r', r' ≠ r →
       pointer_of r' (onmessage env ev w) = pointer_of r' w) ∧
    idMap (wstate (onmessage env ev w)) = idMap (wstate w) ∧
    defaultDb (wstate (onmessage env ev w)) =
      (if decide (defaultDb (wstate w) = Some r) then None
       else defaultDb (wstate w)) ∧
    unlinked (onmessage env ev w) =
      (if unlink_requested ev && negb (String.eqb (db_fileName_of r w) "")
       then unlinked w ++ [db_fileName_of r w]
       else unlinked w).
Proof.
  intros Hw Htype Hid Hr. apply reachable_Inv in Hw.
  destruct (inv_dbs w Hw _ _ Hr) as [Hm [p0 Hp0]].
  destruct (inv_ids w Hw _ _ Hm) as (_ & n & q & Hmade & _).
  assert (id_of r w = id) as Hidof by (unfold id_of; by rewrite Hm).
  pose proof (onmessage_messages env ev w Hw) as Hmsg.
  pose proof (onmessage_same_registry env ev w Hw) as Hreg.
  pose proof (f_equal unlinked (onmessage_eq env ev w Hw)) as Hunl.
  rewrite unlinked_post in Hunl.
  rewrite (dispatch_close env ev w Htype) in Hmsg, Hreg, Hunl.
  rewrite (wMsgHandler_close_eq ev w Hw), routed_resolve in Hmsg, Hreg, Hunl
    by done.
  rewrite Hid in Hmsg, Hreg, Hunl. simpl in Hmsg, Hreg, Hunl.
  rewrite Hr in Hmsg, Hreg, Hunl. simpl in Hmsg, Hreg, Hunl.
  rewrite Hidof in Hmsg.
  destruct Hreg as (Hdef & _ & Hmap & Hdbs & Hheap). simpl in *.
  unfold pointer_of in *.
  destruct (heap w !! r) as [o|] eqn:Eo; [|done].
  eexists. split; [by apply posted_since_app|].
  split; [exact Htype|]. split.
  { simpl. rewrite Hid. simpl. by rewrite Hmade. }
  split; [reflexivity|]. rewrite Hheap, Hdbs, Hidof.
  split.
  { rewrite list_lookup_insert_eq; [done|]. by eapply lookup_lt_Some. }
  split; [done|]. split.
  { intros r' Hne. by rewrite list_lookup_insert_ne. }
  done.
Qed.

Lemma close_of_open_handle_witness :
  reachable one_open_World ∧
  ∃ resp,
    posted_since one_open_World
      (onmessage (sample_env quiet_exec)
         (request "close" VUndefined (Some "db#1@7")) one_open_World) =
      [Response resp] ∧
    type resp = "close" ∧
    dbId resp = VStr "db#1@7" ∧
    result resp =
      Success (VObject [("filename", VStr (db_filename_of 0 one_open_World));
                        ("dbId", VStr "db#1@7")]) ∧
    pointer_of 0
      (onmessage (sample_env quiet_exec)
         (request "close" VUndefined (Some "db#1@7")) one_open_World) = None ∧
    dbs (wstate (onmessage (sample_env quiet_exec)
                   (request "close" VUndefined (Some "db#1@7"))
                   one_open_World)) =
      delete "db#1@7" (dbs (wstate one_open_World)) ∧
    (∀ r', r' ≠ 0 →
       pointer_of r'
         (onmessage (sample_env quiet_exec)
            (request "close" VUndefined (Some "db#1@7")) one_open_World) =
       pointer_of r' one_open_World) ∧
    idMap (wstate (onmessage (sample_env quiet_exec)
                     (request "close" VUndefined (Some "db#1@7"))
                     one_open_World)) = idMap (wstate one_open_World) ∧
    defaultDb (wstate (onmessage (sample_env quiet_exec)
                         (request "close" VUndefined (Some "db#1@7"))
                         one_open_World)) =
      (if decide (defaultDb (wstate one_open_World) = Some 0) then None
       else defaultDb (wstate one_open_World)) ∧
    unlinked (onmessage (sample_env quiet_exec)
                (request "close" VUndefined (Some "db#1@7"))
                one_open_World) =
      (if unlink_requested (request "close" VUndefined (Some "db#1@7"))
          && negb (String.eqb (db_fileName_of 0 one_open_World) "")
       then unlinked one_open_World ++ [db_fileName_of 0 one_open_World]
       else unlinked one_open_World).
Proof.
  split; [apply reachable_one_open_World|].
  apply (close_of_open_handle (sample_env quiet_exec)
           (request "close" VUndefined (Some "db#1@7")) one_open_World
           "db#1@7" 0).
  - apply reachable_one_open_World.
  - reflexivity.
  - reflexivity.
  - vm_compute. reflexivity.
Defined.

(** ** Closed identifiers are never used again *)






(** ** [exec] without a stream *)

Lemma engine_rows_inert rows rc n w :
  get rc "resultRows" = VUndefined →
  get rc "callback" = VUndefined →
  engine_rows false rows rc n w = (rc, n, w).
Proof.
  intros Hrows Hcb. revert n. induction rows as [|r rows IH]; intros n; simpl.
  - done.
  - unfold push_into. rewrite Hrows, Hcb. apply IH.
Qed.

Lemma columnNames_inert names rc :
  get rc "columnNames" = VUndefined →
  fold_left (fun c x => push_into c "columnNames" x) names rc = rc.
Proof.
  intros H. induction names as [|x names IH]; simpl; [done|].
  unfold push_into at 2. by rewrite H.
Qed.

(** A [try] block that throws, having changed nothing but the inbound
    message. *)
Lemma onmessage_of_throw_after env ev ev' w err :
  Inv w →
  dispatch env ev w = (Throws err, ev', w) →
  ∃ resp failure,
    posted_since w (onmessage env ev w) = [Response resp] ∧
    type resp = "error" ∧
    result resp = Failure failure ∧
    operation failure = ev_type ev' ∧
    errorClass failure = err_name err ∧
    message failure = err_message err ∧
    input failure = ev' ∧
    same_registry w (onmessage env ev w).
Proof.
  intros HI Hd.
  pose proof (onmessage_messages env ev w HI) as Hmsg.
  pose proof (onmessage_same_registry env ev w HI) as Hreg.
  rewrite Hd in Hmsg, Hreg. simpl in *.
  eexists _, _. split; [by apply posted_since_app|].
  split; [done|]. split; [reflexivity|]. simpl.
  do 4 (split; [done|]). exact Hreg.
Qed.

(** X14. [exec] of a bare SQL string on a resolved handle: the options
    are synthesized as [{sql: <the string>}] and get the row mode
    ['array']; no row message is posted; when the engine returns, the one
    response echoes [{sql, rowMode: 'array'}], and when the engine throws,
    the one response is the error with the engine's message, echoing the
    request with its string untouched. *)
Theorem exec_of_sql_string env ev w s r :
  reachable w →
  ev_type ev = "exec" →
  ev_args ev = VStr s →
  resolve (ev_dbId ev) w = Some r →
  ∃ resp,
    posted_since w (onmessage env ev w) = [Response resp] ∧
    match exec_throws (db_exec env r) with
    | None =>
        type resp = "exec" ∧
        result resp =
          Success (VObject [("sql", VStr s); ("rowMode", VStr "array")])
    | Some err =>
        type resp = "error" ∧
        ∃ failure,
          result resp = Failure failure ∧
          operation failure = "exec" ∧
          errorClass failure = err_name err ∧
          message failure = err_message err ∧
          input failure = ev
    end.
Proof.
  intros Hw Htype Hargs Hr. apply reachable_Inv in Hw.
  assert (wMsgHandler_exec env ev w =
          (match exec_throws (db_exec env r) with
           | None => Returns (VObject [("sql", VStr s);
                                       ("rowMode", VStr "array")])
           | Some err => Throws err
           end, ev, w)) as Hexec.
  { unfold wMsgHandler_exec. rewrite Hargs. simpl.
    unfold exec_body. destruct (getMsgDb_resolve ev w Hw) as [-> _].
    rewrite Hr. simpl. unfold engine_exec.
    rewrite columnNames_inert by done.
    rewrite engine_rows_inert by done.
    by destruct (exec_throws (db_exec env r)). }
  pose proof (onmessage_messages env ev w Hw) as Hmsg.
  rewrite (dispatch_exec env ev w Htype), Hexec in Hmsg. simpl in Hmsg.
  eexists. split; [by apply posted_since_app|].
  destruct (exec_throws (db_exec env r)) as [err|]; simpl.
  - split; [done|]. eexists. split; [reflexivity|]. simpl. by rewrite Htype.
  - by rewrite Htype.
Qed.

Lemma exec_of_sql_string_witness :
  reachable one_open_World ∧
  ∃ resp,
    posted_since one_open_World
      (onmessage (sample_env quiet_exec)
         (request "exec" (VStr "CREATE TABLE t(a)") None) one_open_World) =
      [Response resp] ∧
    type resp = "exec" ∧
    result resp =
      Success (VObject [("sql", VStr "CREATE TABLE t(a)");
                        ("rowMode", VStr "array")]).
Proof.
  split; [apply reachable_one_open_World|].
  apply (exec_of_sql_string (sample_env quiet_exec)
           (request "exec" (VStr "CREATE TABLE t(a)") None) one_open_World
           "CREATE TABLE t(a)" 0).
  - apply reachable_one_open_World.
  - reflexivity.
  - reflexivity.
  - vm_compute. reflexivity.
Defined.

(** ** [exec] when no handle resolves *)

(** X15. An [exec] request (a string, no arguments, or an options object
    in a mode other than ['stmt']) that neither names an open handle nor
    finds a default handle is answered by the error "DB is not opened.":
    the engine is not called, no row message is posted and the registry
    is as it was. The echoed message has the type, the handle id and the
    same values or objects as [messageId] and [departureTime] as the
    inbound one; its [args] have received the default row mode if they
    are an object. *)
Theorem exec_without_open_handle env ev w :
  reachable w →
  ev_type ev = "exec" →
  typeof_string (ev_args ev) || negb (truthy (ev_args ev))
    || typeof_object (ev_args ev) = true →
  is_str (get (ev_args ev) "rowMode") "stmt" = false →
  resolve (ev_dbId ev) w = None →
  ∃ resp failure,
    posted_since w (onmessage env ev w) = [Response resp] ∧
    type resp = "error" ∧
    result resp = Failure failure ∧
    operation failure = "exec" ∧
    errorClass failure = "Error" ∧
    message failure = "DB is not opened." ∧
    same_envelope ev (input failure) ∧
    same_registry w (onmessage env ev w).
Proof.
  intros Hw Htype Hshape Hmode Hr. apply reachable_Inv in Hw.
  assert (∃ ev', wMsgHandler_exec env ev w =
            (Throws (mkError "Error" "DB is not opened."), ev', w) ∧
            same_envelope ev ev') as (ev' & Hexec & Henv).
  { unfold wMsgHandler_exec.
    set (rc := if typeof_string (ev_args ev) then _ else _).
    set (aliased := negb _ && _).
    assert (is_str (get rc "rowMode") "stmt" = false) as Hmode'.
    { subst rc. unfold js_or.
      destruct (ev_args ev) as [| |[]|n| | | |]; simpl; try done.
      by destruct (negb (n =? 0)%Z). }
    assert (is_Some (put rc "rowMode" (VStr "array"))) as [rc' Hput].
    { subst rc. unfold js_or.
      destruct (ev_args ev) as [| |[]|n| | | |]; simpl in *; eauto;
        try done.
      destruct (negb (n =? 0)%Z); simpl in *; eauto. done. }
    destruct (get rc "rowMode") eqn:Em; rewrite ?Hmode', ?Hput;
      rewrite exec_body_unresolved by done;
      (eexists; split; [reflexivity|apply with_args_same_envelope]). }
  destruct (onmessage_of_throw_after env ev ev' w
              (mkError "Error" "DB is not opened.") Hw) as (resp & p & H).
  { by rewrite (dispatch_exec env ev w Htype). }
  pose proof Henv as (Hty & _). rewrite Hty, Htype in H.
  exists resp, p.
  destruct H as (H1 & H2 & H3 & H4 & H5 & H6 & H7 & H8).
  do 6 (split; [done|]). split; [by rewrite H7|done].
Qed.

Lemma exec_without_open_handle_witness :
  reachable initial_World ∧
  ∃ resp failure,
    posted_since initial_World
      (onmessage (sample_env quiet_exec)
         (request "exec" (VStr "select 1") None) initial_World) =
      [Response resp] ∧
    type resp = "error" ∧
    result resp = Failure failure ∧
    operation failure = "exec" ∧
    errorClass failure = "Error" ∧
    message failure = "DB is not opened." ∧
    same_envelope (request "exec" (VStr "select 1") None) (input failure) ∧
    same_registry initial_World
      (onmessage (sample_env quiet_exec)
         (request "exec" (VStr "select 1") None) initial_World).
Proof.
  split; [apply reachable_initial|].
  apply (exec_without_open_handle (sample_env quiet_exec)
           (request "exec" (VStr "select 1") None) initial_World).
  - apply reachable_initial.
  - reflexivity.
  - reflexivity.
  - reflexivity.
  - reflexivity.
Defined.

(** ** [config-get] *)

Lemma config_get_props env k :
  ∃ rc,
    wMsgHandler_config_get env = ret (VObject rc) ∧
    lookup_prop rc k =
      if String.eqb k "persistenceEnabled"
      then Some (VBool (negb (String.eqb (persistent_dir env) "")))
      else if String.eqb k "persistentDirName" || String.eqb k "bigIntEnabled"
           then lookup_prop (config env) k
           else None.
Proof.
  unfold wMsgHandler_config_get.
  eexists. split; [reflexivity|].
  destruct (String.eqb k "persistenceEnabled") eqn:Ea.
  { apply String.eqb_eq in Ea. subst k. apply lookup_set_prop_eq. }
  rewrite lookup_set_prop_ne
    by (intros <-; by rewrite String.eqb_refl in Ea).
  cbn [fold_left].
  destruct (String.eqb k "persistentDirName") eqn:Eb.
  { apply String.eqb_eq in Eb. subst k. cbn [orb].
    destruct (lookup_prop (config env) "persistentDirName") as [v1|] eqn:E1;
      destruct (lookup_prop (config env) "bigIntEnabled") as [v2|] eqn:E2;
      reflexivity. }
  destruct (String.eqb k "bigIntEnabled") eqn:Ec.
  { apply String.eqb_eq in Ec. subst k. cbn [orb].
    destruct (lookup_prop (config env) "persistentDirName") as [v1|] eqn:E1;
      destruct (lookup_prop (config env) "bigIntEnabled") as [v2|] eqn:E2;
      rewrite ?E2; reflexivity. }
  cbn [orb].
  destruct (lookup_prop (config env) "persistentDirName") as [v1|];
    cbn -[String.eqb];
    destruct (lookup_prop (config env) "bigIntEnabled") as [v2|];
    cbn -[String.eqb];
    change (String.eqb "bigIntEnabled" "persistentDirName") with false;
    cbn -[String.eqb]; by rewrite ?Eb, ?Ec.
Qed.

(** X16. [config-get] never fails and changes nothing. Its result holds
    [persistenceEnabled], which tells whether a persistent directory is
    set, and of the properties of [sqlite3.config] only
    [persistentDirName] and [bigIntEnabled], each present exactly when
    the configuration has it; no other property of the configuration
    crosses the boundary. *)
Theorem config_get_allow_list env ev w :
  reachable w →
  ev_type ev = "config-get" →
  ∃ resp rc,
    posted_since w (onmessage env ev w) = [Response resp] ∧
    type resp = "config-get" ∧
    result resp = Success (VObject rc) ∧
    (∀ k,
       lookup_prop rc k =
         if String.eqb k "persistenceEnabled"
         then Some (VBool (negb (String.eqb (persistent_dir env) "")))
         else if String.eqb k "persistentDirName"
                 || String.eqb k "bigIntEnabled"
              then lookup_prop (config env) k
              else None) ∧
    same_registry w (onmessage env ev w).
Proof.
  intros Hw Htype. apply reachable_Inv in Hw.
  pose proof (onmessage_messages env ev w Hw) as Hmsg.
  pose proof (onmessage_same_registry env ev w Hw) as Hreg.
  assert (dispatch env ev w =
          ((wMsgHandler_config_get env w).1, ev,
           (wMsgHandler_config_get env w).2)) as Hd.
  { unfold dispatch. rewrite Htype. simpl.
    by destruct (wMsgHandler_config_get env w). }
  rewrite Hd in Hmsg, Hreg.
  destruct (config_get_props env "") as (rc & Hrc & _).
  rewrite Hrc in Hmsg, Hreg. simpl in Hmsg, Hreg.
  eexists _, rc. split; [by apply posted_since_app|].
  split; [exact Htype|]. split; [reflexivity|]. split; [|done].
  intros k. destruct (config_get_props env k) as (rc' & Hrc' & Hk).
  rewrite Hrc in Hrc'.
  assert (rc' = rc) as ->; [|done].
  apply (f_equal (fun m => m initial_World)) in Hrc'. unfold ret in Hrc'.
  congruence.
Qed.

Lemma config_get_allow_list_witness :
  reachable initial_World ∧
  ∃ resp rc,
    posted_since initial_World
      (onmessage (sample_env quiet_exec)
         (request "config-get" VUndefined None) initial_World) =
      [Response resp] ∧
    type resp = "config-get" ∧
    result resp = Success (VObject rc) ∧
    (∀ k,
       lookup_prop rc k =
         if String.eqb k "persistenceEnabled"
         then Some (VBool (negb (String.eqb
                                   (persistent_dir (sample_env quiet_exec)) "")))
         else if String.eqb k "persistentDirName"
                 || String.eqb k "bigIntEnabled"
              then lookup_prop (config (sample_env quiet_exec)) k
              else None) ∧
    same_registry initial_World
      (onmessage (sample_env quiet_exec)
         (request "config-get" VUndefined None) initial_World).
Proof.
  split; [apply reachable_initial|].
  apply (config_get_allow_list (sample_env quiet_exec)
           (request "config-get" VUndefined None) initial_World).
  - apply reachable_initial.
  - reflexivity.
Defined.

(** ** The configuration handed to the bootstrap *)

Lemma hasOwnProperty_js_or_empty a k :
  hasOwnProperty (js_or a (VObject [])) k = hasOwnProperty a k.
Proof.
  unfold js_or. destruct (truthy a) eqn:E; [done|]. by destruct a.
Qed.

(** X17. The configuration that the replaced [sqlite3ApiBootstrap] hands
    on has exactly the keys [Module], [exports] and [memory]. For each of
    them the client's value is taken whenever the client's object has the
    key as an own property, whatever the value (a falsy value included),
    and the Emscripten default otherwise; every other property of the
    client's object is dropped, and a missing client object counts as an
    empty one. *)
Theorem bootstrap_config_merge EmModule apiConfig k :
  lookup_prop (sqlite3ApiBootstrap_config EmModule apiConfig) k =
    if String.eqb k "Module" || String.eqb k "exports" || String.eqb k "memory"
    then Some (if hasOwnProperty apiConfig k then get apiConfig k
               else default VUndefined
                      (lookup_prop (configDefaults EmModule) k))
    else None.
Proof.
  assert (sqlite3ApiBootstrap_config EmModule apiConfig =
          [("Module",
            if hasOwnProperty (js_or apiConfig (VObject [])) "Module"
            then get (js_or apiConfig (VObject [])) "Module" else EmModule);
           ("exports",
            if hasOwnProperty (js_or apiConfig (VObject [])) "exports"
            then get (js_or apiConfig (VObject [])) "exports"
            else get EmModule "asm");
           ("memory",
            if hasOwnProperty (js_or apiConfig (VObject [])) "memory"
            then get (js_or apiConfig (VObject [])) "memory"
            else get EmModule "wasmMemory")]) as -> by reflexivity.
  cbn -[String.eqb hasOwnProperty get js_or].
  rewrite !hasOwnProperty_js_or_empty, !get_js_or_empty.
  destruct (String.eqb k "Module") eqn:E1.
  { apply String.eqb_eq in E1. by subst k. }
  destruct (String.eqb k "exports") eqn:E2.
  { apply String.eqb_eq in E2. by subst k. }
  destruct (String.eqb k "memory") eqn:E3; [|done].
  apply String.eqb_eq in E3. by subst k.
Qed.

(** A client that sets [memory] to [null] keeps that value; its stray
    [debug] property does not reach the bootstrap. *)
Example bootstrap_config_of_partial_client :
  sqlite3ApiBootstrap_config
    (VObject [("asm", VStr "exports of the module");
              ("wasmMemory", VStr "memory of the module")])
    (VObject [("memory", VNull); ("debug", VBool true)]) =
  [("Module", VObject [("asm", VStr "exports of the module");
                       ("wasmMemory", VStr "memory of the module")]);
   ("exports", VStr "exports of the module");
   ("memory", VNull)].
Proof. reflexivity. Qed.

(** ** The options that [exec] hands back *)



(** ** The file name that [open] asks for *)

(** X19. When a persistent directory is set, [open] of a file name other
    than the empty one and [:memory:] asks the engine for the name under
    that directory, joined by exactly one slash: a leading slash of the
    given name is not doubled. The [persistent] argument of the request
    plays no part. The empty name and [:memory:] are passed as they are,
    and so is every name when no persistent directory is set. *)
Theorem open_filename_under_persistent_dir pDir args s :
  get args "filename" = VStr s →
  open_filename pDir args =
    VStr (if String.eqb s "" || String.eqb s ":memory:" || String.eqb pDir ""
          then s
          else pDir +:+ "/" +:+
               match s with
               | String "/" rest => rest
               | _ => s
               end).
Proof.
  intros Hs. unfold open_filename. rewrite Hs.
  cbn -[String.eqb append]. unfold js_or. cbn -[String.eqb append].
  destruct (String.eqb s "") eqn:E1.
  { by apply String.eqb_eq in E1 as ->. }
  destruct (String.eqb s ":memory:") eqn:E2; [done|].
  cbn -[String.eqb append].
  destruct (String.eqb pDir "") eqn:E3; [done|].
  cbn -[String.eqb append].
  destruct s as [|c rest]; [done|].
  cbn -[String.eqb append].
  destruct (String.eqb (String c "") "/") eqn:E4.
  - apply String.eqb_eq in E4. injection E4 as ->. done.
  - destruct c as [[] [] [] [] [] [] [] []]; try done.
Qed.

Lemma open_filename_under_persistent_dir_witness :
  open_filename "/persist" (VObject [("filename", VStr "/db.sqlite3");
                                     ("persistent", VBool false)]) =
    VStr "/persist/db.sqlite3".
Proof.
  apply (open_filename_under_persistent_dir "/persist"
           (VObject [("filename", VStr "/db.sqlite3");
                     ("persistent", VBool false)]) "/db.sqlite3").
  reflexivity.
Defined.
